(** * RAG pipeline: chunking, ingestion, retrieval and answer generation

    A shallow embedding of [src/rag_pipeline.py] (class [RAGPipeline]) and the
    properties of its chunker, its ingestion path and its query path.

    Conventions of the embedding.
    - A Python [str] is a [string]; a character is its code point, below 256.
    - A Python [float] is a binary64 [float] of the kernel: the truth value of
      a float and the comparison [>=] are the IEEE ones.
    - Counts and positions produced by [enumerate] and [len] are [nat];
      [top_k], which the caller chooses, is a [Z].
    - The collaborators (PDF loader, Whisper, the token splitter, the sentence
      encoder, the Qdrant server, Ollama) are fields of an environment [Env];
      a call either returns or raises, which is the type [Res].
    - The mutable world (the Qdrant collection, the lazily loaded Whisper
      model, the prompts that reached the language model) is threaded through
      a state-and-exception monad [M].  Calls to [print] are left out. *)

From Stdlib Require Import PrimFloat ZArith Ascii String.
From stdpp Require Import gmap strings list.

Set Warnings "-inexact-float".

Local Open Scope string_scope.

(** ** Text: the pieces of Python's [str] and [re] that the pipeline uses *)

Module Text.

(** The line feed, written [\n] in the source. *)
Definition nl : string := String "010"%char EmptyString.

Definition code (c : ascii) : nat := nat_of_ascii c.

(** [\d] of a [str] pattern: the decimal digits.  Below code point 256
    these are ['0'] to ['9']. *)
Definition is_digit (c : ascii) : bool :=
  (48 <=? code c)%nat && (code c <=? 57)%nat.

(** [\s] of a [str] pattern: the characters for which [str.isspace] holds.
    Below code point 256 these are TAB, LF, VT, FF, CR, the separators
    FS, GS, RS, US, the space, NEL (0x85) and the no-break space (0xA0). *)
Definition is_space (c : ascii) : bool :=
  ((9 <=? code c)%nat && (code c <=? 13)%nat)
  || ((28 <=? code c)%nat && (code c <=? 32)%nat)
  || (code c =? 133)%nat
  || (code c =? 160)%nat.

(** A pattern of the shape used by the chunker: a sequence of character
    classes, each with a greedy quantifier. *)
Inductive quant := One | OneOrMore | ZeroOrMore.

Definition atom : Type := (ascii -> bool) * quant.

(** Backtracking match of a pattern at the start of [s]; the result is what
    follows the match.  A greedy quantifier first takes as many characters
    as it can and gives them back one at a time when the rest of the
    pattern fails. *)
Fixpoint match_here (pattern : list atom) (s : string) {struct pattern}
  : option string :=
  match pattern with
  | [] => Some s
  | (cls, q) :: rest =>
      let fix greedy (s : string) {struct s} : option string :=
        match s with
        | String c s' =>
            if cls c
            then match greedy s' with
                 | Some r => Some r
                 | None => match_here rest s
                 end
            else match_here rest s
        | EmptyString => match_here rest s
        end in
      match q with
      | One =>
          match s with
          | String c s' => if cls c then match_here rest s' else None
          | EmptyString => None
          end
      | OneOrMore =>
          match s with
          | String c s' => if cls c then greedy s' else None
          | EmptyString => None
          end
      | ZeroOrMore => greedy s
      end
  end.

(** [re.sub("^" + pattern, repl, s)] for a pattern that cannot match the
    empty string: without [re.MULTILINE] the anchor holds at position 0
    only, so at most one match is replaced. *)
Definition re_sub_anchored (pattern : list atom) (repl s : string) : string :=
  match match_here pattern s with
  | Some rest => repl ++ rest
  | None => s
  end.

(** [r"^\d+\s*"], without its anchor. *)
Definition leading_number : list atom :=
  [(is_digit, OneOrMore); (is_space, ZeroOrMore)].

(** [", ".join(parts)] and the like. *)
Definition join (sep : string) (parts : list string) : string :=
  String.concat sep parts.

(** [os.path.basename] of [posixpath]: what follows the last slash. *)
Fixpoint basename (p : string) : string :=
  match p with
  | EmptyString => EmptyString
  | String c p' =>
      let b := basename p' in
      if existsb (Ascii.eqb "/"%char) (list_ascii_of_string p')
      then b
      else if Ascii.eqb c "/"%char then p' else p
  end.

(** Helpers for stating properties of strings. *)
Fixpoint skip (cls : ascii -> bool) (s : string) : string :=
  match s with
  | String c s' => if cls c then skip cls s' else s
  | EmptyString => EmptyString
  end.

Fixpoint all_chars (cls : ascii -> bool) (s : string) : bool :=
  match s with
  | String c s' => cls c && all_chars cls s'
  | EmptyString => true
  end.

Definition starts_with (cls : ascii -> bool) (s : string) : bool :=
  match s with
  | String c _ => cls c
  | EmptyString => false
  end.

End Text.

(** ** Results, exceptions and the data of the pipeline *)

(** A Python exception, identified with the text [str(e)] that the handlers
    of the pipeline print or embed in their result. *)
Definition exn : Type := string.

Inductive Res (A : Type) : Type :=
| Ok (a : A)
| Raise (e : exn).
Arguments Ok {A} a.
Arguments Raise {A} e.

(** The dictionaries built by [chunk_text]: all four keys are always set. *)
Module Chunk.
Record t : Type := mk
  { text : string; source : string; original_index : nat; chunk_index : nat }.
End Chunk.

(** The payload stored with a point.  The reader uses [payload.get(key,
    default)], so a key may be missing. *)
Module Payload.
Record t : Type := mk
  { text : option string;
    source : option string;
    original_index : option nat;
    chunk_index : option nat }.
End Payload.

(** [PointStruct(id, vector, payload)]. *)
Module Point.
Record t : Type := mk
  { id : nat; vector : list float; payload : Payload.t }.
End Point.

(** An element of [search_results.points]. *)
Module Scored.
Record t : Type := mk
  { id : nat; score : float; payload : Payload.t }.
End Scored.

(** The dictionaries returned by [retrieve]. *)
Module Retrieved.
Record t : Type := mk
  { text : string; source : string; score : float }.
End Retrieved.

(** The dictionary returned by [query]. *)
Module QueryResult.
Record t : Type := mk
  { answer : string; chunks : list Retrieved.t; num_chunks : nat }.
End QueryResult.

(** ** The world and the collaborators *)

Record World : Type := mkWorld
  { collection : gmap nat Point.t;   (* the points of the Qdrant collection *)
    whisper_loaded : bool;           (* [self.whisper_model is not None] *)
    llm_prompts : list string        (* prompts passed to [ollama.generate] *) }.

Record Env : Type := mkEnv
  { pdf_pages : string -> Res (list string);
      (* [[doc.page_content for doc in PyPDFLoader(path).load()]] *)
    whisper_load : Res unit;
      (* [whisper.load_model(name)] *)
    whisper_transcribe : string -> Res string;
      (* [model.transcribe(path)["text"]] *)
    split_text : string -> Res (list string);
      (* [self.text_splitter.split_text] *)
    encode : list string -> Res (list (list float));
      (* [self.embedding_model.encode], one [tolist()] per row *)
    get_collection_fault : option exn;
      (* [Some e]: [get_collection] raises [e] *)
    upsert_fault : list Point.t -> option exn;
      (* [Some e]: the server rejects the batch with [e] *)
    query_points : gmap nat Point.t -> list float -> Z -> Res (list Scored.t);
      (* [query_points(query, limit, with_payload=True).points] *)
    ollama_generate : string -> Res string
      (* [ollama.generate(model, prompt)["response"]] *) }.

(** ** The state-and-exception monad *)

Definition M (A : Type) : Type := World -> Res A * World.

Definition ret {A} (a : A) : M A := fun w => (Ok a, w).

Definition bind {A B} (m : M A) (k : A -> M B) : M B :=
  fun w =>
    match m w with
    | (Ok a, w') => k a w'
    | (Raise e, w') => (Raise e, w')
    end.

Definition lift {A} (r : Res A) : M A := fun w => (r, w).

(** [try: m  except ... as e: h e]. *)
Definition try_except {A} (m : M A) (h : exn -> M A) : M A :=
  fun w =>
    match m w with
    | (Ok a, w') => (Ok a, w')
    | (Raise e, w') => h e w'
    end.

Notation "x <- m ;; k" := (bind m (fun x => k))
  (at level 100, m at next level, right associativity, only parsing).
Notation "m ;;; k" := (bind m (fun _ => k))
  (at level 100, right associativity, only parsing).

(** ** The pipeline, method by method *)

Section Pipeline.

Variable env : Env.

(** [load_pdf]: one text per page. *)
Definition load_pdf (pdf_path : string) : M (list string) :=
  lift (pdf_pages env pdf_path).

(** [transcribe_audio]: the model is loaded on first use and kept. *)
Definition load_whisper_if_needed : M unit :=
  fun w =>
    if whisper_loaded w then (Ok tt, w)
    else match whisper_load env with
         | Ok _ => (Ok tt, mkWorld (collection w) true (llm_prompts w))
         | Raise e => (Raise e, w)
         end.

Definition transcribe_audio (audio_path : string) : M string :=
  load_whisper_if_needed ;;;
  lift (whisper_transcribe env audio_path).

(** [cleaned_text = re.sub(r"^\d+\s*", '', chunk_text)]: the match is
    replaced by the empty string. *)
Definition cleaned_text (chunk_text : string) : string :=
  Text.re_sub_anchored Text.leading_number EmptyString chunk_text.

(** The inner loop of [chunk_text]:
    [for chunk_idx, chunk_text in enumerate(chunks): all_chunks.append(...)];
    [chunk_idx] is the counter of [enumerate]. *)
Fixpoint append_chunks (source : string) (idx chunk_idx : nat)
  (chunks : list string) (all_chunks : list Chunk.t) : list Chunk.t :=
  match chunks with
  | [] => all_chunks
  | chunk_text :: rest =>
      append_chunks source idx (S chunk_idx) rest
        (all_chunks ++ [Chunk.mk (cleaned_text chunk_text) source idx chunk_idx])
  end.

(** The outer loop: [for idx, text in enumerate(texts)]. *)
Fixpoint chunk_texts_from (source : string) (idx : nat) (texts : list string)
  (all_chunks : list Chunk.t) : Res (list Chunk.t) :=
  match texts with
  | [] => Ok all_chunks
  | text :: rest =>
      match split_text env text with
      | Raise e => Raise e
      | Ok chunks =>
          chunk_texts_from source (S idx) rest
            (append_chunks source idx 0 chunks all_chunks)
      end
  end.

Definition chunk_text (texts : list string) (source : string)
  : M (list Chunk.t) :=
  lift (chunk_texts_from source 0 texts []).

(** The loop of [embed_and_store]:
    [for idx, (chunk, embedding) in enumerate(zip(chunks, embeddings))].
    [chunk_text] sets every key, so the defaults of [chunk.get] are unused. *)
Fixpoint append_points (start_id idx : nat)
  (pairs : list (Chunk.t * list float)) (points : list Point.t)
  : list Point.t :=
  match pairs with
  | [] => points
  | (chunk, embedding) :: rest =>
      append_points start_id (S idx) rest
        (points ++
         [Point.mk (start_id + idx) embedding
            (Payload.mk (Some (Chunk.text chunk)) (Some (Chunk.source chunk))
               (Some (Chunk.original_index chunk))
               (Some (Chunk.chunk_index chunk)))])
  end.

(** What the server does with an accepted batch: every point is written
    under its id, replacing a point that has the same id. *)
Definition write_points (coll : gmap nat Point.t) (points : list Point.t)
  : gmap nat Point.t :=
  foldl (fun m p => <[Point.id p := p]> m) coll points.

(** [self.qdrant_client.upsert(collection_name, points)]. *)
Definition upsert (points : list Point.t) : M unit :=
  fun w =>
    match upsert_fault env points with
    | Some e => (Raise e, w)
    | None =>
        (Ok tt,
         mkWorld (write_points (collection w) points)
           (whisper_loaded w) (llm_prompts w))
    end.

Definition embed_and_store (chunks : list Chunk.t) (start_id : nat) : M nat :=
  let texts := map Chunk.text chunks in
  embeddings <- lift (encode env texts) ;;
  let points := append_points start_id 0 (zip chunks embeddings) [] in
  upsert points ;;;
  ret (start_id + length points).

(** [self.qdrant_client.get_collection(name).points_count]. *)
Definition points_count : M nat :=
  fun w =>
    match get_collection_fault env with
    | Some e => (Raise e, w)
    | None => (Ok (size (collection w)), w)
    end.

(** [try: start_id = ...points_count  except: start_id = 0]. *)
Definition read_start_id : M nat :=
  try_except points_count (fun _ => ret 0).

Definition process_pdf (pdf_path : string) : M nat :=
  pdf_texts <- load_pdf pdf_path ;;
  chunks <- chunk_text pdf_texts (Text.basename pdf_path) ;;
  start_id <- read_start_id ;;
  next_id <- embed_and_store chunks start_id ;;
  ret (length chunks).

Definition process_audio (audio_path : string) : M nat :=
  transcript <- transcribe_audio audio_path ;;
  chunks <- chunk_text [transcript] (Text.basename audio_path) ;;
  start_id <- read_start_id ;;
  embed_and_store chunks start_id ;;;
  ret (length chunks).

(** The truth value of a float: everything but the two zeros. *)
Definition truthy (x : float) : bool := negb (PrimFloat.eqb x 0%float).

(** [x >= y] on floats. *)
Definition float_ge (x y : float) : bool := PrimFloat.leb y x.

(** [point.payload.get(key, default)]. *)
Definition get_or {A} (field : option A) (default : A) : A :=
  match field with
  | Some v => v
  | None => default
  end.

(** The loop of [retrieve]:
    [if point.score and point.score >= score_threshold:
       relevant_chunks.append(...)]. *)
Fixpoint append_relevant (score_threshold : float) (points : list Scored.t)
  (relevant_chunks : list Retrieved.t) : list Retrieved.t :=
  match points with
  | [] => relevant_chunks
  | point :: rest =>
      if truthy (Scored.score point)
         && float_ge (Scored.score point) score_threshold
      then append_relevant score_threshold rest
             (relevant_chunks ++
              [Retrieved.mk
                 (get_or (Payload.text (Scored.payload point)) EmptyString)
                 (get_or (Payload.source (Scored.payload point)) "unknown")
                 (Scored.score point)])
      else append_relevant score_threshold rest relevant_chunks
  end.

(** [encode([question])[0]]; indexing an empty result raises. *)
Definition first_row (rows : list (list float)) : Res (list float) :=
  match rows with
  | row :: _ => Ok row
  | [] => Raise "index 0 is out of bounds for axis 0 with size 0"
  end.

Definition search (query : list float) (limit : Z) : M (list Scored.t) :=
  fun w => (query_points env (collection w) query limit, w).

Definition retrieve (question : string) (top_k : Z) (score_threshold : float)
  : M (list Retrieved.t) :=
  rows <- lift (encode env [question]) ;;
  question_embedding <- lift (first_row rows) ;;
  search_results <- search question_embedding top_k ;;
  ret (append_relevant score_threshold search_results []).

(** [f"[Source: {chunk['source']}]\n{chunk['text']}"]. *)
Definition render (chunk : Retrieved.t) : string :=
  "[Source: " ++ Retrieved.source chunk ++ "]" ++ Text.nl
  ++ Retrieved.text chunk.

Definition context_text (context_chunks : list Retrieved.t) : string :=
  Text.join (Text.nl ++ Text.nl) (map render context_chunks).

(** The prompt of [generate_answer], an f-string over [context_text] and
    [question]. *)
Definition prompt_head : string :=
  "Answer the question using the provided context. If the context does not contain relevant information, say you don't know."
  ++ Text.nl ++ Text.nl ++ "Context:" ++ Text.nl.

Definition make_prompt (question : string) (context_chunks : list Retrieved.t)
  : string :=
  prompt_head ++ context_text context_chunks
  ++ Text.nl ++ Text.nl ++ "Question: " ++ question
  ++ Text.nl ++ Text.nl ++ "Answer:".

(** [ollama.generate(model=self.llm_model, prompt=prompt)['response']];
    the prompt is recorded whether or not the call succeeds. *)
Definition call_llm (prompt : string) : M string :=
  fun w =>
    (ollama_generate env prompt,
     mkWorld (collection w) (whisper_loaded w) (llm_prompts w ++ [prompt])).

Definition generate_answer (question : string)
  (context_chunks : list Retrieved.t) : M string :=
  let prompt := make_prompt question context_chunks in
  try_except (call_llm prompt)
    (fun e => ret ("Error generating answer: " ++ e)).

Definition no_information : string :=
  "I couldn't find any relevant information in the knowledge base to answer this question.".

(** [not chunks] on a list. *)
Definition is_empty {A} (l : list A) : bool :=
  match l with
  | [] => true
  | _ :: _ => false
  end.

Definition query (question : string) (top_k : Z) (score_threshold : float)
  : M QueryResult.t :=
  chunks <- retrieve question top_k score_threshold ;;
  if is_empty chunks
  then ret (QueryResult.mk no_information [] 0)
  else
    answer <- generate_answer question chunks ;;
    ret (QueryResult.mk answer chunks (length chunks)).

End Pipeline.

(** ** Reference definitions, in the words of the specification *)

(** The chunks of one source text: its pieces in split order, numbered from
    0, each carrying the position [idx] of the text. *)
Definition chunks_of_text (source : string) (idx : nat)
  (pieces : list string) : list Chunk.t :=
  imap (fun chunk_idx piece =>
          Chunk.mk (cleaned_text piece) source idx chunk_idx) pieces.

(** The chunks of a document: source texts in input order and, within each,
    pieces in split order. *)
Definition chunks_in_order (pieces : string -> list string) (source : string)
  (texts : list string) : list Chunk.t :=
  concat (imap (fun idx text => chunks_of_text source idx (pieces text)) texts).

(** ** Sample collaborators, for evaluating the pipeline on concrete inputs *)

(** A splitter that cuts a text at every occurrence of [sep]. *)
Fixpoint split_at (sep : ascii) (s : string) : list string :=
  match s with
  | EmptyString => [EmptyString]
  | String c s' =>
      if Ascii.eqb c sep then EmptyString :: split_at sep s'
      else match split_at sep s' with
           | p :: ps => String c p :: ps
           | [] => [String c EmptyString]
           end
  end.

(** A splitter that returns a short text as its only chunk, and no chunk
    for the empty text. *)
Definition split_whole (s : string) : list string :=
  match s with
  | EmptyString => []
  | _ => [s]
  end.

(** An encoder that returns one two-dimensional vector per text. *)
Definition sample_encode (texts : list string) : list (list float) :=
  map (fun _ => [1%float; 0%float]) texts.

(** A server that answers every search with the first [limit] of the given
    candidates. *)
Definition sample_search (candidates : list Scored.t)
  (coll : gmap nat Point.t) (query : list float) (limit : Z)
  : Res (list Scored.t) :=
  if (limit <? 0)%Z then Raise "limit must be non-negative"
  else Ok (take (Z.to_nat limit) candidates).

(** A document store: the pages of two files. *)
Definition sample_pages (path : string) : Res (list string) :=
  if String.eqb path "/data/a.pdf"
  then Ok ["1 Alpha"; "2 Beta"; "3 Gamma"; "4 Delta"; "5 Epsilon"]
  else if String.eqb path "/data/b.pdf"
  then Ok ["Zeta"; "Eta"; "Theta"]
  else Raise "File path is not a valid file".

Definition sample_env (split : string -> list string)
  (candidates : list Scored.t) (llm : string -> Res string) : Env :=
  mkEnv sample_pages (Ok tt) (fun _ => Ok "hello|world")
    (fun t => Ok (split t)) (fun texts => Ok (sample_encode texts))
    None (fun _ => None) (sample_search candidates) llm.

Definition empty_world : World := mkWorld ∅ false [].

(** A piece that the cleanup empties: the empty piece, and a run of digits
    followed by nothing but whitespace. *)
Definition digits_then_spaces (piece : string) : bool :=
  match piece with
  | EmptyString => true
  | String _ _ =>
      Text.starts_with Text.is_digit piece
      && Text.all_chars Text.is_space (Text.skip Text.is_digit piece)
  end.

(** The pieces the splitter of [env] returns for a text, when it returns. *)
Definition pieces_of (env : Env) (text : string) : list string :=
  match split_text env text with
  | Ok pieces => pieces
  | Raise _ => []
  end.

(** The test of the loop of [retrieve], and the dictionary it appends. *)
Definition relevant (score_threshold : float) (point : Scored.t) : bool :=
  truthy (Scored.score point) && float_ge (Scored.score point) score_threshold.

Definition to_retrieved (point : Scored.t) : Retrieved.t :=
  Retrieved.mk
    (get_or (Payload.text (Scored.payload point)) EmptyString)
    (get_or (Payload.source (Scored.payload point)) "unknown")
    (Scored.score point).

(** The filter in the words of the specification: keep the results whose
    score is at least the threshold. *)
Definition above_threshold (score_threshold : float) (point : Scored.t)
  : bool :=
  float_ge (Scored.score point) score_threshold.

(** A search result that carries the payload written by the pipeline. *)
Definition hit (id : nat) (score : float) (text source : string) : Scored.t :=
  Scored.mk id score (Payload.mk (Some text) (Some source) (Some 0) (Some id)).

(** The context in the words of the specification: the chunks, each as
    ["[Source: <source>]"], a line feed and its text, in the given
    order, with a blank line between consecutive chunks. *)
Fixpoint context_blocks (first : Retrieved.t) (others : list Retrieved.t)
  : string :=
  match others with
  | [] => render first
  | next :: others' =>
      render first ++ Text.nl ++ Text.nl ++ context_blocks next others'
  end.

(** The world after one more prompt went to the language model. *)
Definition with_prompt (w : World) (prompt : string) : World :=
  mkWorld (collection w) (whisper_loaded w) (llm_prompts w ++ [prompt]).

(** What precedes and what follows the rendering of a chunk in the context:
    the earlier chunks and a blank line, a blank line and the later chunks. *)
Definition blocks_before (before : list Retrieved.t) : string :=
  match before with
  | [] => EmptyString
  | first :: others => context_blocks first others ++ Text.nl ++ Text.nl
  end.

Definition blocks_after (after : list Retrieved.t) : string :=
  match after with
  | [] => EmptyString
  | first :: others => Text.nl ++ Text.nl ++ context_blocks first others
  end.

(** ** Reference definitions for the ingestion path *)

(** The value of [start_id] in [process_pdf] and [process_audio]: the point
    count of the collection, and 0 when it cannot be read. *)
Definition start_id_of (env : Env) (w : World) : nat :=
  match get_collection_fault env with
  | Some _ => 0
  | None => size (collection w)
  end.

(** The payload [embed_and_store] writes for a chunk. *)
Definition payload_of (chunk : Chunk.t) : Payload.t :=
  Payload.mk (Some (Chunk.text chunk)) (Some (Chunk.source chunk))
    (Some (Chunk.original_index chunk)) (Some (Chunk.chunk_index chunk)).

(** The batch of one ingestion: the point at position [i] of the batch has
    the id [start_id + i]. *)
Definition batch (start_id : nat) (chunks : list Chunk.t)
  (embeddings : list (list float)) : list Point.t :=
  imap (fun i pair => Point.mk (start_id + i) (snd pair) (payload_of (fst pair)))
    (zip chunks embeddings).

(** The ids of a collection are 0, 1, ..., up to its point count: no gap. *)
Definition dense (coll : gmap nat Point.t) : Prop :=
  forall i : nat, is_Some (coll !! i) <-> i < size coll.

(** The world after a batch was written. *)
Definition with_points (w : World) (points : list Point.t) : World :=
  mkWorld (write_points (collection w) points) (whisper_loaded w)
    (llm_prompts w).

(** A step before the batch insert of an ingestion run fails with [e]:
    extraction or transcription, chunking, or embedding. *)
Inductive fails_before_insert (env : Env) (w : World)
  : M nat -> exn -> Prop :=
| extraction_fails (path : string) (e : exn) :
    pdf_pages env path = Raise e ->
    fails_before_insert env w (process_pdf env path) e
| pdf_chunking_fails (path : string) (texts : list string) (e : exn) :
    pdf_pages env path = Ok texts ->
    chunk_texts_from env (Text.basename path) 0 texts [] = Raise e ->
    fails_before_insert env w (process_pdf env path) e
| pdf_embedding_fails (path : string) (texts : list string)
    (chunks : list Chunk.t) (e : exn) :
    pdf_pages env path = Ok texts ->
    chunk_texts_from env (Text.basename path) 0 texts [] = Ok chunks ->
    encode env (map Chunk.text chunks) = Raise e ->
    fails_before_insert env w (process_pdf env path) e
| transcription_fails (path : string) (w1 : World) (e : exn) :
    transcribe_audio env path w = (Raise e, w1) ->
    fails_before_insert env w (process_audio env path) e
| audio_chunking_fails (path transcript : string) (w1 : World) (e : exn) :
    transcribe_audio env path w = (Ok transcript, w1) ->
    chunk_texts_from env (Text.basename path) 0 [transcript] [] = Raise e ->
    fails_before_insert env w (process_audio env path) e
| audio_embedding_fails (path transcript : string) (w1 : World)
    (chunks : list Chunk.t) (e : exn) :
    transcribe_audio env path w = (Ok transcript, w1) ->
    chunk_texts_from env (Text.basename path) 0 [transcript] [] = Ok chunks ->
    encode env (map Chunk.text chunks) = Raise e ->
    fails_before_insert env w (process_audio env path) e.

(** An environment whose encoder is down. *)
Definition encoder_down (env : Env) : Env :=
  mkEnv (pdf_pages env) (whisper_load env) (whisper_transcribe env)
    (split_text env) (fun _ => Raise "CUDA out of memory")
    (get_collection_fault env) (upsert_fault env) (query_points env)
    (ollama_generate env).

Definition plain_env : Env := sample_env split_whole [] (fun _ => Ok "ok").

(** The chunks of the two sample documents, and the worlds after each has
    been ingested, one after the other, into an empty collection. *)
Definition sample_chunks_a : list Chunk.t :=
  [Chunk.mk "Alpha" "a.pdf" 0 0; Chunk.mk "Beta" "a.pdf" 1 0;
   Chunk.mk "Gamma" "a.pdf" 2 0; Chunk.mk "Delta" "a.pdf" 3 0;
   Chunk.mk "Epsilon" "a.pdf" 4 0].

Definition sample_chunks_b : list Chunk.t :=
  [Chunk.mk "Zeta" "b.pdf" 0 0; Chunk.mk "Eta" "b.pdf" 1 0;
   Chunk.mk "Theta" "b.pdf" 2 0].

Definition world_after_a : World :=
  with_points empty_world
    (batch 0 sample_chunks_a (sample_encode (map Chunk.text sample_chunks_a))).

Definition world_after_b : World :=
  with_points world_after_a
    (batch 5 sample_chunks_b (sample_encode (map Chunk.text sample_chunks_b))).

(** ** Further sample collaborators *)

(** An environment whose splitter raises on the text ["bad page"]. *)
Definition picky_env : Env :=
  mkEnv sample_pages (Ok tt) (fun _ => Ok "hello|world")
    (fun t => if String.eqb t "bad page" then Raise "tokenizer error"
              else Ok (split_whole t))
    (fun texts => Ok (sample_encode texts))
    None (fun _ => None) (sample_search []) (fun _ => Ok "ok").

(** An environment whose server cannot report the point count. *)
Definition count_down (env : Env) : Env :=
  mkEnv (pdf_pages env) (whisper_load env) (whisper_transcribe env)
    (split_text env) (encode env) (Some "timed out")
    (upsert_fault env) (query_points env) (ollama_generate env).

(** An environment whose Whisper model cannot be loaded. *)
Definition whisper_down (env : Env) : Env :=
  mkEnv (pdf_pages env) (Raise "model not found") (whisper_transcribe env)
    (split_text env) (encode env) (get_collection_fault env)
    (upsert_fault env) (query_points env) (ollama_generate env).

(** An environment whose server refuses every search. *)
Definition search_down (env : Env) : Env :=
  mkEnv (pdf_pages env) (whisper_load env) (whisper_transcribe env)
    (split_text env) (encode env) (get_collection_fault env)
    (upsert_fault env) (fun _ _ _ => Raise "connection refused")
    (ollama_generate env).

(** ** The collections of the server and [_ensure_collection_exists] *)

Module Collection.
Inductive distance : Type := Cosine | Euclid | Dot | Manhattan.
Record t : Type := mk
  { vector_size : nat; metric : distance; points : gmap nat Point.t }.
End Collection.

(** The faults of the two administrative calls: [get_collections] and
    [create_collection(name, VectorParams(size, distance))]. *)
Record Admin : Type := mkAdmin
  { get_collections_fault : option exn;
    create_collection_fault : string -> nat -> option exn }.

(** [_ensure_collection_exists]: the handler prints the exception and raises
    it again. *)
Definition _ensure_collection_exists (env : Env) (admin : Admin)
  (collection_name : string) (server : gmap string Collection.t)
  : Res unit * gmap string Collection.t :=
  match get_collections_fault admin with
  | Some e => (Raise e, server)
  | None =>
      let collection_names := map fst (map_to_list server) in
      if bool_decide (collection_name ∈ collection_names)
      then (Ok tt, server)
      else
        match encode env ["test"] with
        | Raise e => (Raise e, server)
        | Ok test_embedding =>
            match first_row test_embedding with
            | Raise e => (Raise e, server)
            | Ok row =>
                let vector_size := length row in
                match create_collection_fault admin collection_name
                        vector_size with
                | Some e => (Raise e, server)
                | None =>
                    (Ok tt,
                     <[collection_name :=
                         Collection.mk vector_size Collection.Cosine ∅]>
                       server)
                end
            end
        end
  end.

(** ** The address of Ollama, set when the module is imported *)

(** [s.startswith(prefix)]. *)
Fixpoint startswith (s prefix : string) {struct prefix} : bool :=
  match prefix with
  | EmptyString => true
  | String a prefix' =>
      match s with
      | String b s' => Ascii.eqb a b && startswith s' prefix'
      | EmptyString => false
      end
  end.

(** [s.replace(old, new)] for a non-empty [old]: the occurrences of [old]
    are replaced from left to right; [skip] counts the characters of a
    replaced occurrence that are still to be passed over. *)
Fixpoint replace_from (old new : string) (skip : nat) (s : string) : string :=
  match s with
  | EmptyString => EmptyString
  | String c s' =>
      match skip with
      | S k => replace_from old new k s'
      | O =>
          if startswith s old
          then new ++ replace_from old new (String.length old - 1) s'
          else String c (replace_from old new 0 s')
      end
  end.

Definition replace (old new s : string) : string := replace_from old new 0 s.

(** [os.getenv(key, default)]. *)
Definition getenv (environ : gmap string string) (key fallback : string)
  : string :=
  default fallback (environ !! key).

Definition OLLAMA_HOST (environ : gmap string string) : string :=
  getenv environ "OLLAMA_URL"
    (getenv environ "OLLAMA_HOST" "http://localhost:11434").

(** The truth value of a string: it is not empty. *)
Definition nonempty (s : string) : bool :=
  match s with
  | EmptyString => false
  | String _ _ => true
  end.

(** [if OLLAMA_HOST: os.environ['OLLAMA_HOST'] = OLLAMA_HOST.replace(
    'http://', '').replace('https://', '')]. *)
Definition configure_ollama_host (environ : gmap string string)
  : gmap string string :=
  if nonempty (OLLAMA_HOST environ)
  then
    let ollama_host :=
      replace "https://" EmptyString
        (replace "http://" EmptyString (OLLAMA_HOST environ)) in
    <["OLLAMA_HOST" := ollama_host]> environ
  else environ.

(** [old] occurs somewhere in [s]. *)
Fixpoint occurs (old s : string) : bool :=
  startswith s old
  || match s with
     | String _ s' => occurs old s'
     | EmptyString => false
     end.

(** A server that holds one collection. *)
Definition sample_server : gmap string Collection.t :=
  {[ "other" := Collection.mk 384 Collection.Cosine ∅ ]}.

Definition calm_admin : Admin := mkAdmin None (fun _ _ => None).

(** ** The REST interface of [src/rag_api.py]

    A view function returns a JSON body and a status code.  The typed fields
    of a request stand for JSON values of that type; the temporary files of
    the upload folder are a set of paths. *)

Module Api.

(** The double quote, which some messages contain. *)
Definition dq : string := String "034"%char EmptyString.

(** [str.lower], below code point 256: the letters A to Z, and the capital
    letters from 0xC0 to 0xDE except the multiplication sign 0xD7. *)
Definition lower_char (c : ascii) : ascii :=
  let n := Text.code c in
  if ((65 <=? n)%nat && (n <=? 90)%nat)
     || ((192 <=? n)%nat && (n <=? 222)%nat && negb (n =? 215)%nat)
  then ascii_of_nat (n + 32)
  else c.

Fixpoint lower (s : string) : string :=
  match s with
  | EmptyString => EmptyString
  | String c s' => String (lower_char c) (lower s')
  end.

(** [s.endswith(suffix)]. *)
Fixpoint endswith (s suffix : string) : bool :=
  String.eqb s suffix
  || match s with
     | String _ s' => endswith s' suffix
     | EmptyString => false
     end.

(** [c in s] for a character [c]. *)
Fixpoint contains_char (c : ascii) (s : string) : bool :=
  match s with
  | EmptyString => false
  | String b s' => Ascii.eqb b c || contains_char c s'
  end.

(** [s.rsplit(sep, 1)[1]]: what follows the last [sep]; there is no such
    element when [sep] does not occur. *)
Fixpoint after_last (sep : ascii) (s : string) : option string :=
  match s with
  | EmptyString => None
  | String c s' =>
      match after_last sep s' with
      | Some rest => Some rest
      | None => if Ascii.eqb c sep then Some s' else None
      end
  end.

(** [s.strip()]. *)
Fixpoint rstrip (s : string) : string :=
  match s with
  | EmptyString => EmptyString
  | String c s' =>
      match rstrip s' with
      | EmptyString =>
          if Text.is_space c then EmptyString else String c EmptyString
      | String c' r => String c (String c' r)
      end
  end.

Definition strip (s : string) : string := rstrip (Text.skip Text.is_space s).

(** [s[:n]]. *)
Fixpoint first_chars (n : nat) (s : string) : string :=
  match n, s with
  | S k, String c s' => String c (first_chars k s')
  | _, _ => EmptyString
  end.

(** [os.path.join(a, b)] of [posixpath]. *)
Definition path_join (a b : string) : string :=
  if startswith b "/" then b
  else if negb (nonempty a) || endswith a "/" then a ++ b
  else a ++ "/" ++ b.

Definition ALLOWED_EXTENSIONS : gset string :=
  {[ "pdf"; "wav"; "mp3"; "mp4"; "m4a"; "flac"; "ogg" ]}.

(** ['.' in filename and
     filename.rsplit('.', 1)[1].lower() in ALLOWED_EXTENSIONS]. *)
Definition allowed_file (filename : string) : bool :=
  contains_char "." filename
  && match after_last "." filename with
     | Some extension => bool_decide (lower extension ∈ ALLOWED_EXTENSIONS)
     | None => false
     end.

(** The chunk dictionaries of a response. *)
Module Shown.
Record t : Type := mk { text : string; source : string; score : float }.
End Shown.

Inductive Body : Type :=
| Failure (error message : string)
| Uploaded (message filename : string) (chunks_processed : nat)
| Answered (question answer : string) (num_chunks_retrieved : nat)
    (chunks : list Shown.t).

Definition Response : Type := (Body * nat)%type.

(** What the view functions take from their surroundings. *)
Record Host : Type := mkHost
  { secure_filename : string -> string;
      (* [werkzeug.utils.secure_filename] *)
    UPLOAD_FOLDER : string;
      (* [tempfile.gettempdir()] *)
    round4 : float -> float;
      (* [round(x, 4)] *)
    formats : string;
      (* [", ".join(ALLOWED_EXTENSIONS)], in the iteration order of the set *)
    save_fault : string -> option (exn * bool);
      (* [Some (e, partial)]: [file.save(path)] raises [e]; [partial]
         tells whether a file is left at [path] *)
    remove_fault : string -> option exn
      (* [Some e]: [os.remove(path)] raises [e] *) }.

Record Site : Type := mkSite
  { pipeline : World;
    temp_files : gset string }.

(** The fields of the JSON body of [POST /query], and the parameters of
    [GET /answer] after conversion ([None]: absent, or not convertible). *)
Record Fields : Type := mkFields
  { question : option string;
    top_k : option Z;
    score_threshold : option float }.

Definition pipeline_query := query.

Section Views.

Variable host : Host.
Variable env : Env.

(** [if os.path.exists(filepath): os.remove(filepath)]. *)
Definition remove_if_exists (filepath : string) (files : gset string)
  : Res unit * gset string :=
  if bool_decide (filepath ∈ files)
  then match remove_fault host filepath with
       | Some e => (Raise e, files)
       | None => (Ok tt, files ∖ {[ filepath ]})
       end
  else (Ok tt, files).

(** The handler [except Exception as e] of the two upload views; [filepath]
    is bound when it runs. *)
Definition processing_failed (filepath : string) (e : exn) (w : World)
  (files : gset string) : Res Response * Site :=
  match remove_if_exists filepath files with
  | (Raise e', files') => (Raise e', mkSite w files')
  | (Ok _, files') =>
      (Ok (Failure "Processing failed" e, 500), mkSite w files')
  end.

(** The [try] block of the two upload views, which differ in the method of
    the pipeline and in the message. *)
Definition save_and_process (process : string -> M nat) (message : string)
  (file_filename : string) (site : Site) : Res Response * Site :=
  let filename := secure_filename host file_filename in
  let filepath := path_join (UPLOAD_FOLDER host) filename in
  match save_fault host filepath with
  | Some (e, partial) =>
      processing_failed filepath e (pipeline site)
        (if partial then {[ filepath ]} ∪ temp_files site
         else temp_files site)
  | None =>
      let files := {[ filepath ]} ∪ temp_files site in
      match process filepath (pipeline site) with
      | (Raise e, w) => processing_failed filepath e w files
      | (Ok num_chunks, w) =>
          match remove_if_exists filepath files with
          | (Raise e, files') => processing_failed filepath e w files'
          | (Ok _, files') =>
              (Ok (Uploaded message filename num_chunks, 200),
               mkSite w files')
          end
      end
  end.

Definition no_file_part : Response :=
  (Failure "No file part in the request"
     ("Please provide a file in the " ++ dq ++ "file" ++ dq ++ " field"),
   400).

Definition no_file_selected : Response :=
  (Failure "No file selected" "Please select a file to upload", 400).

(** [upload_pdf]; [file] is the name of the part ["file"] of the request,
    if there is one. *)
Definition upload_pdf (file : option string) (site : Site)
  : Res Response * Site :=
  match file with
  | None => (Ok no_file_part, site)
  | Some file_filename =>
      if negb (nonempty file_filename) then (Ok no_file_selected, site)
      else if negb (endswith (lower file_filename) ".pdf")
      then (Ok (Failure "Invalid file type" "Only PDF files are allowed", 400),
            site)
      else save_and_process (process_pdf env) "PDF processed successfully"
             file_filename site
  end.

Definition upload_media (file : option string) (site : Site)
  : Res Response * Site :=
  match file with
  | None => (Ok no_file_part, site)
  | Some file_filename =>
      if negb (nonempty file_filename) then (Ok no_file_selected, site)
      else if negb (allowed_file file_filename)
      then (Ok (Failure "Invalid file type"
                  ("Allowed formats: " ++ formats host), 400),
            site)
      else save_and_process (process_audio env)
             "Media file processed successfully" file_filename site
  end.

(** [chunk['text'][:200] + '...' if len(chunk['text']) > 200
     else chunk['text']]. *)
Definition shown_text (text : string) : string :=
  if (200 <? String.length text)%nat then first_chars 200 text ++ "..."
  else text.

Definition show (chunk : Retrieved.t) : Shown.t :=
  Shown.mk (shown_text (Retrieved.text chunk)) (Retrieved.source chunk)
    (round4 host (Retrieved.score chunk)).

(** The [try] block of the two question views. *)
Definition answer (question : string) (top_k : option Z)
  (score_threshold : option float) (site : Site) : Res Response * Site :=
  match pipeline_query env question (default 5%Z top_k)
          (default 0.3%float score_threshold) (pipeline site) with
  | (Ok result, w) =>
      (Ok (Answered question (QueryResult.answer result)
             (QueryResult.num_chunks result)
             (map show (QueryResult.chunks result)), 200),
       mkSite w (temp_files site))
  | (Raise e, w) =>
      (Ok (Failure "Query failed" e, 500), mkSite w (temp_files site))
  end.

Definition empty_question : Response :=
  (Failure "Empty question" "Question cannot be empty", 400).

(** [query], the view of [POST /query]; [data] is [request.get_json()]. *)
Definition query (is_json : bool) (data : option Fields) (site : Site)
  : Res Response * Site :=
  if negb is_json
  then (Ok (Failure "Invalid content type"
              "Content-Type must be application/json", 400), site)
  else
    match data ≫= question with
    | None =>
        (Ok (Failure "Missing question"
               ("Please provide a " ++ dq ++ "question" ++ dq
                ++ " field in the request body"), 400), site)
    | Some text =>
        let question := strip text in
        if negb (nonempty question) then (Ok empty_question, site)
        else answer question (data ≫= top_k) (data ≫= score_threshold) site
    end.

(** [answer_question], the view of [GET /answer]. *)
Definition answer_question (args : Fields) (site : Site)
  : Res Response * Site :=
  match question args with
  | Some (String c text) =>
      let question := strip (String c text) in
      if negb (nonempty question) then (Ok empty_question, site)
      else answer question (top_k args) (score_threshold args) site
  | _ =>
      (Ok (Failure "Missing question"
             ("Please provide a " ++ dq ++ "question" ++ dq
              ++ " query parameter"), 400), site)
  end.

End Views.

(** An outcome of a question view that is a response: the view returned
    with one of the three status codes, the collection and the temporary
    files are those of [site], and a response with an answer carries a
    stripped question, the number of the chunks it lists, and shown texts of
    at most 203 characters. *)
Definition settled (site : Site) (outcome : Res Response * Site) : Prop :=
  exists (response : Response) (w : World),
    outcome = (Ok response, mkSite w (temp_files site))
    /\ collection w = collection (pipeline site)
    /\ (snd response = 200 \/ snd response = 400 \/ snd response = 500)
    /\ match fst response with
       | Answered q a n chunks =>
           strip q = q /\ n = length chunks
           /\ Forall (fun c => (String.length (Shown.text c) <= 203)%nat)
                chunks
       | Failure _ _ => True
       | Uploaded _ _ _ => False
       end.

(** A host whose file system and helpers never fail. *)
Definition plain_host : Host :=
  mkHost (fun name => name) "/tmp" (fun x => x)
    "pdf, wav, mp3, mp4, m4a, flac, ogg" (fun _ => None) (fun _ => None).

Definition empty_site : Site := mkSite empty_world ∅.

End Api.

(** * Properties *)

(** ** The regular expression of the chunker *)

Lemma skip_split (cls : ascii -> bool) (s : string) :
  exists pre : string,
    s = pre ++ Text.skip cls s
    /\ Text.all_chars cls pre = true
    /\ Text.starts_with cls (Text.skip cls s) = false.
Proof.
  induction s as [|c s IH]; simpl.
  - exists EmptyString. auto.
  - destruct (cls c) eqn:Hc.
    + destruct IH as (pre & Hs & Hall & Hstart).
      exists (String c pre). simpl. rewrite Hc.
      split; [|auto].
      change (String c s = String c (pre ++ Text.skip cls s)).
      f_equal. exact Hs.
    + exists EmptyString. simpl. auto.
Qed.

Lemma match_star (cls : ascii -> bool) (s : string) :
  Text.match_here [(cls, Text.ZeroOrMore)] s = Some (Text.skip cls s).
Proof.
  induction s as [|c s IH]; [reflexivity|].
  cbn in *. rewrite IH. destruct (cls c); reflexivity.
Qed.

Lemma match_leading_number (s : string) :
  Text.match_here Text.leading_number s
  = if Text.starts_with Text.is_digit s
    then Some (Text.skip Text.is_space (Text.skip Text.is_digit s))
    else None.
Proof.
  assert (G : forall t,
    Text.match_here [(Text.is_digit, Text.ZeroOrMore);
                     (Text.is_space, Text.ZeroOrMore)] t
    = Some (Text.skip Text.is_space (Text.skip Text.is_digit t))).
  { induction t as [|c t IH]; [reflexivity|].
    pose proof (match_star Text.is_space (String c t)) as Hs.
    cbn in *. rewrite IH. destruct (Text.is_digit c); [reflexivity|].
    exact Hs. }
  destruct s as [|c s]; [reflexivity|].
  specialize (G s). cbn in *. destruct (Text.is_digit c); [exact G|reflexivity].
Qed.

Lemma cleaned_text_eq (chunk : string) :
  cleaned_text chunk
  = if Text.starts_with Text.is_digit chunk
    then Text.skip Text.is_space (Text.skip Text.is_digit chunk)
    else chunk.
Proof.
  unfold cleaned_text, Text.re_sub_anchored.
  rewrite match_leading_number.
  destruct (Text.starts_with Text.is_digit chunk); reflexivity.
Qed.

(** C4, as amended.  The cleanup removes a leading run of one or more digits
    together with the whitespace that directly follows it, if any, and
    nothing else: either the chunk does not start with a digit and is
    returned unchanged, or it is [digits ++ spaces ++ cleaned], where
    [cleaned] does not start with whitespace and, when no whitespace was
    removed, does not start with a digit either.  So ["12 Introduction
    to..."] becomes ["Introduction to..."], ["Chapter 12 covers..."] is
    unchanged, and ["12abc"] becomes ["abc"]. *)
Theorem cleaned_text_strips_leading_number :
  (forall chunk : string,
     (Text.starts_with Text.is_digit chunk = false
      /\ cleaned_text chunk = chunk)
     \/ (exists (d : ascii) (ds ws : string),
           chunk = String d ds ++ ws ++ cleaned_text chunk
           /\ Text.all_chars Text.is_digit (String d ds) = true
           /\ Text.all_chars Text.is_space ws = true
           /\ Text.starts_with Text.is_space (cleaned_text chunk) = false
           /\ ((ws = EmptyString
                /\ Text.starts_with Text.is_digit (cleaned_text chunk) = false)
               \/ exists (c : ascii) (ws' : string), ws = String c ws')))
  /\ cleaned_text "12 Introduction to..." = "Introduction to..."
  /\ cleaned_text "Chapter 12 covers..." = "Chapter 12 covers..."
  /\ cleaned_text "12abc" = "abc".
Proof.
  split; [|repeat split; reflexivity].
  intros chunk. rewrite cleaned_text_eq.
  destruct chunk as [|d s]; [left; split; reflexivity|].
  cbn [Text.starts_with]. destruct (Text.is_digit d) eqn:Hd; [right|left; auto].
  cbn [Text.skip]. rewrite Hd.
  destruct (skip_split Text.is_digit s) as (ds & Hs & Hds & Hnd).
  destruct (skip_split Text.is_space (Text.skip Text.is_digit s))
    as (ws & Hr & Hws & Hns).
  exists d, ds, ws. repeat split.
  - change (String d s = String d (ds ++ ws
              ++ Text.skip Text.is_space (Text.skip Text.is_digit s))).
    rewrite <- Hr, <- Hs. reflexivity.
  - cbn [Text.all_chars]. rewrite Hd, Hds. reflexivity.
  - exact Hws.
  - exact Hns.
  - destruct ws as [|c ws']; [left|right; eauto].
    split; [reflexivity|].
    change (Text.skip Text.is_digit s
            = Text.skip Text.is_space (Text.skip Text.is_digit s)) in Hr.
    rewrite <- Hr. exact Hnd.
Qed.

(** C4, as stated, fails: the leading digits of ["12abc"] are not followed by
    whitespace, and they are removed all the same. *)
Lemma cleaned_text_drops_unspaced_digits :
  Text.starts_with Text.is_space (Text.skip Text.is_digit "12abc") = false
  /\ cleaned_text "12abc" = "abc"
  /\ cleaned_text "12abc" <> "12abc".
Proof. repeat split; try reflexivity. discriminate. Qed.

(** ** The chunker *)

Lemma append_chunks_eq (source : string) (idx : nat) (pieces : list string) :
  forall (k : nat) (acc : list Chunk.t),
    append_chunks source idx k pieces acc
    = (acc ++ imap (fun j piece =>
                      Chunk.mk (cleaned_text piece) source idx (k + j)) pieces)%list.
Proof.
  induction pieces as [|p pieces IH]; intros k acc; simpl.
  - by rewrite app_nil_r.
  - rewrite IH, <- app_assoc. simpl. rewrite Nat.add_0_r.
    do 2 f_equal. apply imap_ext. intros j x _. simpl. f_equal. lia.
Qed.

Lemma chunk_texts_from_eq (env : Env) (pieces : string -> list string)
  (source : string) (texts : list string) :
  Forall (fun t => split_text env t = Ok (pieces t)) texts ->
  forall (idx : nat) (acc : list Chunk.t),
    chunk_texts_from env source idx texts acc
    = Ok (acc ++ concat (imap (fun i t =>
                            chunks_of_text source (idx + i) (pieces t)) texts))%list.
Proof.
  induction 1 as [|t texts Ht _ IH]; intros idx acc; simpl.
  - by rewrite app_nil_r.
  - rewrite Ht, IH, append_chunks_eq, <- app_assoc, Nat.add_0_r.
    do 4 f_equal. apply imap_ext. intros i x _. simpl. f_equal. lia.
Qed.

Lemma chunks_of_text_index (source : string) (idx : nat)
  (pieces : list string) :
  Forall (fun c => Chunk.original_index c = idx)
    (chunks_of_text source idx pieces).
Proof.
  apply Forall_forall. intros c Hc. unfold chunks_of_text in Hc.
  apply list_elem_of_lookup in Hc as [j Hj].
  rewrite list_lookup_imap in Hj.
  destruct (pieces !! j); simplify_eq/=. reflexivity.
Qed.

Lemma filter_all {A} (P : A -> Prop) `{!forall x, Decision (P x)}
  (l : list A) : Forall P l -> filter P l = l.
Proof.
  induction 1 as [|x l Hx _ IH]; [done|].
  by rewrite filter_cons_True, IH.
Qed.

Lemma filter_none {A} (P : A -> Prop) `{!forall x, Decision (P x)}
  (l : list A) : Forall (fun x => ~ P x) l -> filter P l = [].
Proof.
  induction 1 as [|x l Hx _ IH]; [done|].
  by rewrite filter_cons_False.
Qed.

Lemma filter_group (pieces : string -> list string) (source : string)
  (idx : nat) (texts : list string) :
  forall k : nat,
    filter (fun c => Chunk.original_index c = idx)
      (concat (imap (fun i t =>
                 chunks_of_text source (k + i) (pieces t)) texts))
    = match texts !! (idx - k) with
      | Some text =>
          if decide (k <= idx) then chunks_of_text source idx (pieces text)
          else []
      | None => []
      end.
Proof.
  induction texts as [|t texts IH]; intros k; [done|].
  rewrite imap_cons. simpl concat. rewrite filter_app.
  rewrite (imap_ext _ (fun i t => chunks_of_text source (S k + i) (pieces t)))
    by (intros i x _; simpl; f_equal; lia).
  rewrite IH, Nat.add_0_r.
  destruct (decide (k = idx)) as [->|Hne].
  - rewrite Nat.sub_diag. simpl.
    rewrite filter_all by apply chunks_of_text_index.
    rewrite decide_True by lia.
    replace (idx - S idx) with 0 by lia.
    destruct (texts !! 0); [rewrite decide_False by lia|]; by rewrite app_nil_r.
  - rewrite filter_none.
    2:{ eapply Forall_impl; [apply chunks_of_text_index|]. simpl. congruence. }
    simpl. destruct (decide (k <= idx)) as [Hle|Hgt].
    + replace (idx - k) with (S (idx - S k)) by lia. simpl.
      destruct (texts !! (idx - S k)); [|done].
      by rewrite decide_True by lia.
    + replace (idx - k) with 0 by lia. replace (idx - S k) with 0 by lia.
      simpl. destruct (texts !! 0); [|done]. by rewrite decide_False by lia.
Qed.

Lemma chunks_of_text_indices (source : string) (idx : nat)
  (pieces : list string) :
  map Chunk.chunk_index (chunks_of_text source idx pieces)
  = seq 0 (length pieces).
Proof.
  unfold chunks_of_text.
  change (map Chunk.chunk_index) with (fmap (M:=list) Chunk.chunk_index).
  rewrite fmap_imap. simpl.
  rewrite <- (list_fmap_id (seq 0 (length pieces))).
  rewrite <- (imap_seq_0 pieces id). apply imap_ext. done.
Qed.

Lemma chunks_in_order_app (pieces : string -> list string) (source : string)
  (l1 l2 : list string) :
  chunks_in_order pieces source (l1 ++ l2)%list
  = (chunks_in_order pieces source l1
     ++ concat (imap (fun i t =>
                  chunks_of_text source (length l1 + i) (pieces t)) l2))%list.
Proof. unfold chunks_in_order. by rewrite imap_app, concat_app. Qed.

(** C6.  When the splitter returns [pieces t] for every source text [t], the
    chunker returns the chunks of the texts in input order and, within each
    text, in split order.  The chunk of piece [j] of the text at position
    [idx] carries [original_index = idx] and [chunk_index = j]; the chunks
    whose [original_index] is [idx] are exactly those of that text, and their
    [chunk_index] values are 0, 1, ..., in this order. *)
Theorem chunk_text_order (env : Env) (pieces : string -> list string)
  (texts : list string) (source : string) (w : World) :
  Forall (fun t => split_text env t = Ok (pieces t)) texts ->
  chunk_text env texts source w
  = (Ok (chunks_in_order pieces source texts), w)
  /\ (forall (idx j : nat) (text piece : string),
        texts !! idx = Some text ->
        pieces text !! j = Some piece ->
        chunks_in_order pieces source texts
          !! (length (chunks_in_order pieces source (take idx texts)) + j)
        = Some (Chunk.mk (cleaned_text piece) source idx j))
  /\ (forall (idx : nat) (text : string),
        texts !! idx = Some text ->
        let group :=
          filter (fun c => Chunk.original_index c = idx)
            (chunks_in_order pieces source texts) in
        group = chunks_of_text source idx (pieces text)
        /\ map Chunk.chunk_index group = seq 0 (length (pieces text))).
Proof.
  intros Hsplit. split; [|split].
  - unfold chunk_text, lift.
    rewrite (chunk_texts_from_eq env pieces source texts Hsplit). reflexivity.
  - intros idx j text piece Hidx Hj.
    remember (length (chunks_in_order pieces source (take idx texts)))
      as off eqn:Hoff.
    rewrite <- (take_drop_middle texts idx text Hidx).
    rewrite chunks_in_order_app, lookup_app_r by lia.
    replace (off + j - _) with j by lia.
    rewrite imap_cons. simpl concat. rewrite lookup_app_l.
    2:{ unfold chunks_of_text. rewrite length_imap.
        by eapply lookup_lt_Some. }
    unfold chunks_of_text. rewrite list_lookup_imap, Hj. simpl.
    rewrite Nat.add_0_r, length_take_le; [done|].
    apply lookup_lt_Some in Hidx. lia.
  - intros idx text Hidx group. subst group.
    unfold chunks_in_order.
    pose proof (filter_group pieces source idx texts 0) as Hg.
    simpl in Hg. rewrite Hg, Nat.sub_0_r, Hidx.
    split; [reflexivity|apply chunks_of_text_indices].
Qed.

Lemma chunk_text_order_witness :
  chunk_text (sample_env (split_at "|") [] (fun _ => Ok "ok"))
    ["12 Intro|duction"; "Chapter 12"] "doc.pdf" empty_world
  = (Ok [Chunk.mk "Intro" "doc.pdf" 0 0; Chunk.mk "duction" "doc.pdf" 0 1;
         Chunk.mk "Chapter 12" "doc.pdf" 1 0], empty_world).
Proof.
  apply (chunk_text_order (sample_env (split_at "|") [] (fun _ => Ok "ok"))
           (split_at "|") ["12 Intro|duction"; "Chapter 12"] "doc.pdf"
           empty_world).
  repeat constructor.
Defined.

Lemma skip_empty_iff (cls : ascii -> bool) (s : string) :
  Text.skip cls s = EmptyString <-> Text.all_chars cls s = true.
Proof.
  induction s as [|c s IH]; simpl; [done|].
  destruct (cls c); simpl; [exact IH|]. split; discriminate.
Qed.

Lemma cleaned_text_empty_iff (piece : string) :
  cleaned_text piece = EmptyString <-> digits_then_spaces piece = true.
Proof.
  rewrite cleaned_text_eq. destruct piece as [|c s]; [done|].
  unfold digits_then_spaces.
  destruct (Text.starts_with Text.is_digit (String c s)); simpl.
  - apply skip_empty_iff.
  - split; discriminate.
Qed.

Lemma chunk_texts_from_splits (env : Env) (source : string)
  (texts : list string) :
  forall (idx : nat) (acc chunks : list Chunk.t),
    chunk_texts_from env source idx texts acc = Ok chunks ->
    Forall (fun t => split_text env t = Ok (pieces_of env t)) texts.
Proof.
  induction texts as [|t texts IH]; intros idx acc chunks H; [constructor|].
  simpl in H. destruct (split_text env t) as [ps|e] eqn:Ht; [|discriminate].
  constructor; [|by eapply IH].
  unfold pieces_of. by rewrite Ht.
Qed.

Lemma elem_of_chunks_in_order (pieces : string -> list string)
  (source : string) (texts : list string) (c : Chunk.t) :
  c ∈ chunks_in_order pieces source texts ->
  exists (idx j : nat) (text piece : string),
    texts !! idx = Some text /\ pieces text !! j = Some piece
    /\ c = Chunk.mk (cleaned_text piece) source idx j.
Proof.
  unfold chunks_in_order. rewrite list_elem_of_In, in_concat.
  intros (group & Hgroup & Hc).
  apply list_elem_of_In, list_elem_of_lookup in Hgroup as [idx Hidx].
  rewrite list_lookup_imap in Hidx.
  destruct (texts !! idx) as [text|] eqn:Htext; [|discriminate].
  simpl in Hidx. injection Hidx as <-.
  apply list_elem_of_In, list_elem_of_lookup in Hc as [j Hj].
  unfold chunks_of_text in Hj. rewrite list_lookup_imap in Hj.
  destruct (pieces text !! j) as [piece|] eqn:Hpiece; [|discriminate].
  simpl in Hj. injection Hj as <-. eauto 8.
Qed.

Lemma chunks_of_text_texts (source : string) (idx : nat)
  (pieces : list string) :
  map Chunk.text (chunks_of_text source idx pieces) = map cleaned_text pieces.
Proof.
  unfold chunks_of_text.
  change (map Chunk.text) with (fmap (M:=list) Chunk.text).
  rewrite fmap_imap. simpl. apply imap_const.
Qed.

Lemma chunk_groups_facts (pieces : string -> list string) (source : string)
  (texts : list string) :
  forall k : nat,
    let chunks :=
      concat (imap (fun i t =>
                chunks_of_text source (k + i) (pieces t)) texts) in
    length chunks = sum_list_with (fun t => length (pieces t)) texts
    /\ Forall (fun c => Chunk.source c = source) chunks
    /\ map Chunk.text chunks = map cleaned_text (concat (map pieces texts)).
Proof.
  induction texts as [|t texts IH]; intros k; [by repeat split|].
  destruct (IH (S k)) as (Hlen & Hsrc & Htexts). clear IH.
  cbv zeta. rewrite imap_cons. cbn [concat map sum_list_with].
  rewrite (imap_ext _ (fun i t => chunks_of_text source (S k + i) (pieces t)))
    by (intros i x _; simpl; f_equal; lia).
  rewrite length_app, Hlen, !map_app, Htexts, chunks_of_text_texts.
  split; [|split]; [|apply Forall_app; split; [|done]|done].
  - unfold chunks_of_text. by rewrite length_imap.
  - apply Forall_forall. intros c Hc. unfold chunks_of_text in Hc.
    apply list_elem_of_lookup in Hc as [j Hj].
    rewrite list_lookup_imap in Hj.
    destruct (pieces t !! j); simplify_eq/=. reflexivity.
Qed.

(** C5, as amended.  When the chunker returns, it emits exactly one chunk
    per piece that the splitter returned, none dropped and none added: the
    texts of the chunks are the cleaned pieces of the source texts, in order.
    Every chunk emitted carries the cleanup of one such piece, and every such
    piece has its chunk; the text of that chunk is empty exactly when the
    piece is empty or is a run of digits followed by nothing but whitespace.
    So a chunk with an empty text is emitted for every such piece, and for
    no other. *)
Theorem chunk_text_nonempty_unless_number (env : Env) (texts : list string)
  (source : string) (w w' : World) (chunks : list Chunk.t) :
  chunk_text env texts source w = (Ok chunks, w') ->
  Forall (fun t => exists pieces, split_text env t = Ok pieces) texts
  /\ map Chunk.text chunks
     = map cleaned_text (concat (map (pieces_of env) texts))
  /\ (forall c : Chunk.t,
        c ∈ chunks ->
        exists (text piece : string) (pieces : list string),
          text ∈ texts /\ split_text env text = Ok pieces /\ piece ∈ pieces
          /\ Chunk.text c = cleaned_text piece
          /\ (Chunk.text c = EmptyString <-> digits_then_spaces piece = true))
  /\ (forall (text piece : string) (pieces : list string),
        text ∈ texts ->
        split_text env text = Ok pieces ->
        piece ∈ pieces ->
        exists c : Chunk.t,
          c ∈ chunks
          /\ Chunk.text c = cleaned_text piece
          /\ (Chunk.text c = EmptyString <-> digits_then_spaces piece = true)).
Proof.
  unfold chunk_text, lift. intros H.
  injection H as H _.
  pose proof (chunk_texts_from_splits env source texts 0 [] chunks H) as Hs.
  rewrite (chunk_texts_from_eq env (pieces_of env) source texts Hs) in H.
  injection H as <-. simpl.
  destruct (chunk_groups_facts (pieces_of env) source texts 0)
    as (_ & _ & Htexts).
  simpl in Htexts. fold (chunks_in_order (pieces_of env) source texts) in Htexts.
  split; [|split; [exact Htexts|split]].
  - eapply Forall_impl; [exact Hs|]. simpl. eauto.
  - intros c Hc.
    apply elem_of_chunks_in_order in Hc
      as (idx & j & text & piece & Hidx & Hj & ->).
    exists text, piece, (pieces_of env text). simpl.
    repeat split.
    + by eapply list_elem_of_lookup_2.
    + rewrite Forall_forall in Hs. apply Hs. by eapply list_elem_of_lookup_2.
    + by eapply list_elem_of_lookup_2.
    + apply cleaned_text_empty_iff.
    + apply cleaned_text_empty_iff.
  - intros text piece pieces Htext Hsplit Hpiece.
    assert (Hin : cleaned_text piece
                  ∈ map Chunk.text (chunks_in_order (pieces_of env) source texts)).
    { rewrite Htexts. apply list_elem_of_In, in_map, in_concat.
      exists (pieces_of env text). split.
      - apply in_map. by apply list_elem_of_In.
      - unfold pieces_of. rewrite Hsplit. by apply list_elem_of_In. }
    apply list_elem_of_In, in_map_iff in Hin as (c & Hc & Hcin).
    exists c. split; [by apply list_elem_of_In|]. split; [exact Hc|].
    rewrite Hc. apply cleaned_text_empty_iff.
Qed.

Lemma chunk_text_nonempty_unless_number_witness :
  map Chunk.text
    [Chunk.mk EmptyString "doc.pdf" 0 0; Chunk.mk "Chapter 12" "doc.pdf" 1 0]
  = map cleaned_text ["12"; "Chapter 12"]
  /\ exists c : Chunk.t,
       c ∈ [Chunk.mk EmptyString "doc.pdf" 0 0;
            Chunk.mk "Chapter 12" "doc.pdf" 1 0]
       /\ Chunk.text c = cleaned_text "12"
       /\ (Chunk.text c = EmptyString <-> digits_then_spaces "12" = true).
Proof.
  destruct (chunk_text_nonempty_unless_number plain_env
              ["12"; "Chapter 12"] "doc.pdf" empty_world empty_world
              [Chunk.mk EmptyString "doc.pdf" 0 0;
               Chunk.mk "Chapter 12" "doc.pdf" 1 0]
              eq_refl)
    as (_ & Htexts & _ & Hemit).
  split; [exact Htexts|].
  apply (Hemit "12" "12" ["12"]).
  - apply list_elem_of_In. simpl. auto.
  - reflexivity.
  - apply list_elem_of_In. simpl. auto.
Defined.

(** C5, as stated, fails: a page that holds only its page number is split
    into the piece ["12"], and the chunk emitted for it has an empty text. *)
Lemma chunk_text_emits_empty_text :
  chunk_text (sample_env split_whole [] (fun _ => Ok "ok"))
    ["12"] "doc.pdf" empty_world
  = (Ok [Chunk.mk EmptyString "doc.pdf" 0 0], empty_world).
Proof. reflexivity. Qed.

(** ** Retrieval *)

Lemma append_relevant_eq (score_threshold : float) (points : list Scored.t) :
  forall acc : list Retrieved.t,
    append_relevant score_threshold points acc
    = (acc ++ map to_retrieved
                (List.filter (relevant score_threshold) points))%list.
Proof.
  induction points as [|p points IH]; intros acc; simpl.
  - by rewrite app_nil_r.
  - fold (relevant score_threshold p).
    destruct (relevant score_threshold p); rewrite IH; [|done].
    by rewrite <- app_assoc.
Qed.

(** [retrieve] leaves the world as it found it. *)
Lemma retrieve_world (env : Env) (question : string) (top_k : Z)
  (score_threshold : float) (w w' : World) (r : Res (list Retrieved.t)) :
  retrieve env question top_k score_threshold w = (r, w') -> w' = w.
Proof.
  unfold retrieve, bind, lift, search, ret.
  destruct (encode env [question]) as [rows|e]; [|congruence].
  destruct (first_row rows) as [v|e]; [|congruence].
  destruct (query_points env (collection w) v top_k); congruence.
Qed.

Lemma retrieve_eq (env : Env) (question : string) (top_k : Z)
  (score_threshold : float) (w : World) (v : list float)
  (rows : list (list float)) (points : list Scored.t) :
  encode env [question] = Ok (v :: rows) ->
  query_points env (collection w) v top_k = Ok points ->
  retrieve env question top_k score_threshold w
  = (Ok (map to_retrieved (List.filter (relevant score_threshold) points)), w).
Proof.
  intros He Hq. unfold retrieve, bind, lift, search, ret.
  rewrite He. simpl. rewrite Hq. by rewrite append_relevant_eq.
Qed.

(** On candidates whose scores are all different from zero, [retrieve]
    returns exactly those whose score is at least the threshold, in the order
    of the search. *)
Lemma retrieve_nonzero_scores (env : Env) (question : string) (top_k : Z)
  (score_threshold : float) (w : World) (v : list float)
  (rows : list (list float)) (points : list Scored.t) :
  encode env [question] = Ok (v :: rows) ->
  query_points env (collection w) v top_k = Ok points ->
  Forall (fun p => truthy (Scored.score p) = true) points ->
  retrieve env question top_k score_threshold w
  = (Ok (map to_retrieved
           (List.filter (above_threshold score_threshold) points)), w).
Proof.
  intros He Hq Hnz. rewrite (retrieve_eq _ _ _ _ _ _ _ _ He Hq).
  assert (Hf : List.filter (relevant score_threshold) points
               = List.filter (above_threshold score_threshold) points).
  { clear He Hq. induction Hnz as [|p points Hp _ IH]; [done|].
    simpl. unfold relevant, above_threshold in *. rewrite Hp, IH. done. }
  by rewrite Hf.
Qed.

(** The example of the specification: of the candidates with scores 0.9,
    0.5 and 0.2, the threshold 0.3 keeps the first two, in that order. *)
Example retrieve_spec_example :
  retrieve
    (sample_env split_whole
       [hit 0 0.9 "a" "doc.pdf"; hit 1 0.5 "b" "doc.pdf";
        hit 2 0.2 "c" "doc.pdf"]
       (fun _ => Ok "ok"))
    "question" 5 0.3 empty_world
  = (Ok [Retrieved.mk "a" "doc.pdf" 0.9; Retrieved.mk "b" "doc.pdf" 0.5],
     empty_world).
Proof. reflexivity. Qed.

(** C1 on the code.  A candidate whose score is exactly zero is dropped even
    though it is at least the threshold: with the threshold -1 the candidates
    with scores 0.5, 0 and -0.25 all pass the comparison, and [retrieve]
    returns the first and the third only. *)
Theorem retrieve_drops_zero_score :
  List.filter (above_threshold (-1))
    [hit 0 0.5 "a" "doc.pdf"; hit 1 0 "b" "doc.pdf";
     hit 2 (-0.25) "c" "doc.pdf"]
  = [hit 0 0.5 "a" "doc.pdf"; hit 1 0 "b" "doc.pdf";
     hit 2 (-0.25) "c" "doc.pdf"]
  /\ retrieve
       (sample_env split_whole
          [hit 0 0.5 "a" "doc.pdf"; hit 1 0 "b" "doc.pdf";
           hit 2 (-0.25) "c" "doc.pdf"]
          (fun _ => Ok "ok"))
       "question" 5 (-1) empty_world
     = (Ok [Retrieved.mk "a" "doc.pdf" 0.5;
            Retrieved.mk "c" "doc.pdf" (-0.25)],
        empty_world).
Proof. split; reflexivity. Qed.

(** ** The query path *)

Lemma length_filter_le {A} (f : A -> bool) (l : list A) :
  length (List.filter f l) <= length l.
Proof.
  induction l as [|x l IH]; simpl; [lia|]. destruct (f x); simpl; lia.
Qed.

Lemma generate_answer_eq (env : Env) (question : string)
  (chunks : list Retrieved.t) (w : World) :
  generate_answer env question chunks w
  = (Ok match ollama_generate env (make_prompt question chunks) with
        | Ok response => response
        | Raise e => "Error generating answer: " ++ e
        end,
     with_prompt w (make_prompt question chunks)).
Proof.
  unfold generate_answer, try_except, call_llm, ret, with_prompt.
  destruct (ollama_generate env (make_prompt question chunks)); reflexivity.
Qed.

(** C2.  When the retrieval returns no chunk, [query] returns the fixed
    answer, an empty chunk list and [num_chunks = 0], and no prompt reaches
    the language model. *)
Theorem query_empty_retrieval (env : Env) (question : string) (top_k : Z)
  (score_threshold : float) (w w1 : World) :
  retrieve env question top_k score_threshold w = (Ok [], w1) ->
  query env question top_k score_threshold w
  = (Ok (QueryResult.mk
           "I couldn't find any relevant information in the knowledge base to answer this question."
           [] 0),
     w1)
  /\ llm_prompts w1 = llm_prompts w.
Proof.
  intros Hr. split.
  - unfold query, bind. rewrite Hr. reflexivity.
  - by rewrite (retrieve_world _ _ _ _ _ _ _ Hr).
Qed.

Lemma query_empty_retrieval_witness :
  query
    (sample_env split_whole
       [hit 0 0.25 "a" "doc.pdf"; hit 1 0.125 "b" "doc.pdf"]
       (fun _ => Ok "ok"))
    "question" 5 0.3 empty_world
  = (Ok (QueryResult.mk
           "I couldn't find any relevant information in the knowledge base to answer this question."
           [] 0),
     empty_world)
  /\ llm_prompts empty_world = llm_prompts empty_world.
Proof.
  apply (query_empty_retrieval
           (sample_env split_whole
              [hit 0 0.25 "a" "doc.pdf"; hit 1 0.125 "b" "doc.pdf"]
              (fun _ => Ok "ok"))
           "question" 5 0.3 empty_world empty_world).
  reflexivity.
Defined.

(** C3.  When the retrieval returns at least one chunk and the call to the
    language model raises [e], [query] still returns: the answer is
    ["Error generating answer: "] followed by [e], and the chunks and
    their count are those retrieved. *)
Theorem query_absorbs_llm_failure (env : Env) (question : string) (top_k : Z)
  (score_threshold : float) (w w1 : World) (chunks : list Retrieved.t)
  (e : exn) :
  retrieve env question top_k score_threshold w = (Ok chunks, w1) ->
  chunks <> [] ->
  ollama_generate env (make_prompt question chunks) = Raise e ->
  query env question top_k score_threshold w
  = (Ok (QueryResult.mk ("Error generating answer: " ++ e) chunks
           (length chunks)),
     with_prompt w1 (make_prompt question chunks)).
Proof.
  intros Hr Hne He. unfold query, bind. rewrite Hr.
  destruct chunks as [|c cs]; [done|]. cbn [is_empty].
  rewrite generate_answer_eq, He. reflexivity.
Qed.

Lemma query_absorbs_llm_failure_witness :
  query
    (sample_env split_whole [hit 0 0.5 "a" "doc.pdf"]
       (fun _ => Raise "connection refused"))
    "question" 5 0.3 empty_world
  = (Ok (QueryResult.mk "Error generating answer: connection refused"
           [Retrieved.mk "a" "doc.pdf" 0.5] 1),
     with_prompt empty_world
       (make_prompt "question" [Retrieved.mk "a" "doc.pdf" 0.5])).
Proof.
  apply (query_absorbs_llm_failure
           (sample_env split_whole [hit 0 0.5 "a" "doc.pdf"]
              (fun _ => Raise "connection refused"))
           "question" 5 0.3 empty_world empty_world
           [Retrieved.mk "a" "doc.pdf" 0.5] "connection refused").
  - reflexivity.
  - discriminate.
  - reflexivity.
Defined.

(** C10.  When the encoder and the search return, and the search returns at
    most [top_k] points, [query] returns a result whose [num_chunks] is the
    length of its chunk list, and that length is at most [top_k]. *)
Theorem query_num_chunks (env : Env) (question : string) (top_k : Z)
  (score_threshold : float) (w : World) (v : list float)
  (rows : list (list float)) (points : list Scored.t) :
  encode env [question] = Ok (v :: rows) ->
  query_points env (collection w) v top_k = Ok points ->
  (Z.of_nat (length points) <= top_k)%Z ->
  exists (result : QueryResult.t) (w' : World),
    query env question top_k score_threshold w = (Ok result, w')
    /\ QueryResult.num_chunks result = length (QueryResult.chunks result)
    /\ (Z.of_nat (length (QueryResult.chunks result)) <= top_k)%Z.
Proof.
  intros He Hq Hlim. unfold query, bind.
  rewrite (retrieve_eq env question top_k score_threshold w v rows points He Hq).
  pose proof (length_filter_le (relevant score_threshold) points) as Hlen.
  destruct (map to_retrieved (List.filter (relevant score_threshold) points))
    as [|c cs] eqn:Hchunks; cbn [is_empty].
  - eexists _, _. split; [reflexivity|]. simpl. split; [done|lia].
  - rewrite generate_answer_eq. eexists _, _. split; [reflexivity|].
    cbn [QueryResult.num_chunks QueryResult.chunks]. split; [done|].
    rewrite <- Hchunks, length_map. lia.
Qed.

Lemma query_num_chunks_witness :
  exists (result : QueryResult.t) (w' : World),
    query
      (sample_env split_whole
         [hit 0 0.9 "a" "doc.pdf"; hit 1 0.5 "b" "doc.pdf";
          hit 2 0.2 "c" "doc.pdf"]
         (fun _ => Ok "ok"))
      "question" 2 0.3 empty_world
    = (Ok result, w')
    /\ QueryResult.num_chunks result = length (QueryResult.chunks result)
    /\ (Z.of_nat (length (QueryResult.chunks result)) <= 2)%Z.
Proof.
  apply (query_num_chunks
           (sample_env split_whole
              [hit 0 0.9 "a" "doc.pdf"; hit 1 0.5 "b" "doc.pdf";
               hit 2 0.2 "c" "doc.pdf"]
              (fun _ => Ok "ok"))
           "question" 2 0.3 empty_world [1%float; 0%float] []
           [hit 0 0.9 "a" "doc.pdf"; hit 1 0.5 "b" "doc.pdf"]).
  - reflexivity.
  - reflexivity.
  - simpl. lia.
Defined.

(** ** The prompt *)

Lemma string_app_assoc (a b c : string) : (a ++ b) ++ c = a ++ b ++ c.
Proof.
  induction a as [|x a IH]; [reflexivity|].
  change (String x ((a ++ b) ++ c) = String x (a ++ b ++ c)).
  by rewrite IH.
Qed.

Lemma string_app_nil_r (a : string) : a ++ EmptyString = a.
Proof.
  induction a as [|x a IH]; [reflexivity|].
  change (String x (a ++ EmptyString) = String x a). by rewrite IH.
Qed.

Lemma context_text_cons (first : Retrieved.t) (others : list Retrieved.t) :
  context_text (first :: others) = context_blocks first others.
Proof.
  revert first. induction others as [|next others IH]; intros first.
  - reflexivity.
  - specialize (IH next). unfold context_text, Text.join in *.
    change (render first ++ (Text.nl ++ Text.nl)
            ++ String.concat (Text.nl ++ Text.nl)
                 (map render (next :: others))
            = render first ++ Text.nl ++ Text.nl
              ++ context_blocks next others).
    rewrite IH. by rewrite string_app_assoc.
Qed.

Lemma context_blocks_app (first chunk : Retrieved.t)
  (others after : list Retrieved.t) :
  context_blocks first (others ++ chunk :: after)%list
  = context_blocks first others ++ Text.nl ++ Text.nl
    ++ context_blocks chunk after.
Proof.
  revert first. induction others as [|next others IH]; intros first.
  - reflexivity.
  - change (render first ++ Text.nl ++ Text.nl
            ++ context_blocks next (others ++ chunk :: after)%list
            = (render first ++ Text.nl ++ Text.nl
               ++ context_blocks next others)
              ++ Text.nl ++ Text.nl ++ context_blocks chunk after).
    rewrite IH. by rewrite !string_app_assoc.
Qed.

Lemma context_text_split (before after : list Retrieved.t)
  (chunk : Retrieved.t) :
  context_text (before ++ chunk :: after)%list
  = blocks_before before ++ render chunk ++ blocks_after after.
Proof.
  assert (Hlast : context_blocks chunk after
                  = render chunk ++ blocks_after after).
  { destruct after; simpl; [by rewrite string_app_nil_r|reflexivity]. }
  destruct before as [|first others].
  - change (context_text (chunk :: after)
            = render chunk ++ blocks_after after).
    by rewrite context_text_cons.
  - change (context_text (first :: (others ++ chunk :: after)%list)
            = (context_blocks first others ++ Text.nl ++ Text.nl)
              ++ render chunk ++ blocks_after after).
    rewrite context_text_cons, context_blocks_app, Hlast.
    by rewrite !string_app_assoc.
Qed.

(** C8.  For a non-empty list of chunks, written [before ++ chunk :: after],
    the prompt that reaches the language model is the fixed heading, then the
    context, then a blank line, ["Question: "] and the question, a blank
    line and ["Answer:"].  In the context every chunk appears as
    ["[Source: <source>]"], a line feed and its text; the chunks before it,
    in retrieval order, precede it and are separated from it by a blank line,
    and the chunks after it follow it in the same way. *)
Theorem prompt_layout (env : Env) (question : string)
  (before after : list Retrieved.t) (chunk : Retrieved.t) (w : World) :
  llm_prompts
    (snd (generate_answer env question (before ++ chunk :: after)%list w))
  = (llm_prompts w
     ++ [(prompt_head
          ++ (blocks_before before
              ++ ("[Source: " ++ Retrieved.source chunk ++ "]" ++ Text.nl
                  ++ Retrieved.text chunk)
              ++ blocks_after after)
          ++ Text.nl ++ Text.nl ++ "Question: " ++ question
          ++ Text.nl ++ Text.nl ++ "Answer:")%string])%list.
Proof.
  rewrite generate_answer_eq. cbn [snd with_prompt llm_prompts].
  unfold make_prompt. rewrite context_text_split. unfold render.
  by rewrite !string_app_assoc.
Qed.

Example prompt_layout_example :
  llm_prompts
    (snd (generate_answer (sample_env split_whole [] (fun _ => Ok "ok"))
            "Why?"
            [Retrieved.mk "T1" "a.pdf" 0.9; Retrieved.mk "T2" "b.pdf" 0.5]
            empty_world))
  = ["Answer the question using the provided context. If the context does not contain relevant information, say you don't know."
     ++ Text.nl ++ Text.nl ++ "Context:" ++ Text.nl
     ++ "[Source: a.pdf]" ++ Text.nl ++ "T1" ++ Text.nl ++ Text.nl
     ++ "[Source: b.pdf]" ++ Text.nl ++ "T2" ++ Text.nl ++ Text.nl
     ++ "Question: Why?" ++ Text.nl ++ Text.nl ++ "Answer:"].
Proof. reflexivity. Qed.

(** ** Ingestion *)

Lemma read_start_id_eq (env : Env) (w : World) :
  read_start_id env w = (Ok (start_id_of env w), w).
Proof.
  unfold read_start_id, try_except, points_count, start_id_of, ret.
  destruct (get_collection_fault env); reflexivity.
Qed.

Lemma transcribe_audio_collection (env : Env) (path : string) (w w1 : World)
  (r : Res string) :
  transcribe_audio env path w = (r, w1) -> collection w1 = collection w.
Proof.
  unfold transcribe_audio, bind, load_whisper_if_needed, lift.
  destruct (whisper_loaded w).
  - intros [= _ <-]. reflexivity.
  - destruct (whisper_load env); intros [= _ <-]; reflexivity.
Qed.

(** C9.  When extraction or transcription, chunking, or embedding fails with
    [e], the ingestion raises [e] and the collection holds exactly the
    points it held before. *)
Theorem ingestion_aborts_without_insert (env : Env) (w : World)
  (run : M nat) (e : exn) :
  fails_before_insert env w run e ->
  exists w' : World,
    run w = (Raise e, w') /\ collection w' = collection w.
Proof.
  intros [path e' H | path texts e' H1 H2 | path texts chunks e' H1 H2 H3
         | path w1 e' H | path tr w1 e' H1 H2
         | path tr w1 chunks e' H1 H2 H3].
  - exists w. unfold process_pdf, bind, load_pdf, lift. by rewrite H.
  - exists w. unfold process_pdf, bind, load_pdf, chunk_text, lift.
    by rewrite H1, H2.
  - exists w. unfold process_pdf, bind, load_pdf, chunk_text, lift.
    rewrite H1, H2, read_start_id_eq.
    unfold embed_and_store, bind, lift. by rewrite H3.
  - exists w1. unfold process_audio, bind. rewrite H.
    split; [reflexivity|by eapply transcribe_audio_collection].
  - exists w1. unfold process_audio, bind, chunk_text, lift. rewrite H1, H2.
    split; [reflexivity|by eapply transcribe_audio_collection].
  - exists w1. unfold process_audio, bind, chunk_text, lift.
    rewrite H1, H2, read_start_id_eq.
    unfold embed_and_store, bind, lift. rewrite H3.
    split; [reflexivity|by eapply transcribe_audio_collection].
Qed.

Lemma ingestion_aborts_without_insert_witness :
  exists w' : World,
    process_pdf (encoder_down plain_env) "/data/a.pdf" empty_world
    = (Raise "CUDA out of memory", w')
    /\ collection w' = collection empty_world.
Proof.
  apply (ingestion_aborts_without_insert (encoder_down plain_env) empty_world
           (process_pdf (encoder_down plain_env) "/data/a.pdf")
           "CUDA out of memory").
  eapply pdf_embedding_fails; reflexivity.
Defined.

Lemma append_points_eq (start_id : nat) (pairs : list (Chunk.t * list float)) :
  forall (k : nat) (acc : list Point.t),
    append_points start_id k pairs acc
    = (acc ++ imap (fun i pair =>
                      Point.mk (start_id + (k + i)) (snd pair)
                        (payload_of (fst pair))) pairs)%list.
Proof.
  induction pairs as [|[chunk embedding] pairs IH]; intros k acc; simpl.
  - by rewrite app_nil_r.
  - rewrite IH, <- app_assoc. simpl. rewrite Nat.add_0_r.
    do 2 f_equal. apply imap_ext. intros i x _. simpl. do 2 f_equal. lia.
Qed.

Lemma append_points_batch (start_id : nat) (chunks : list Chunk.t)
  (embeddings : list (list float)) :
  append_points start_id 0 (zip chunks embeddings) []
  = batch start_id chunks embeddings.
Proof. by rewrite append_points_eq. Qed.

Lemma batch_ids (start_id : nat) (chunks : list Chunk.t)
  (embeddings : list (list float)) :
  length embeddings = length chunks ->
  map Point.id (batch start_id chunks embeddings)
  = seq start_id (length chunks).
Proof.
  intros Hlen. unfold batch.
  change (map Point.id) with (fmap (M:=list) Point.id).
  rewrite fmap_imap. simpl.
  rewrite <- (list_fmap_id (seq start_id (length chunks))).
  replace (length chunks) with (length (zip chunks embeddings)).
  - rewrite <- (imap_seq (zip chunks embeddings) id start_id).
    apply imap_ext. done.
  - rewrite length_zip_with. lia.
Qed.

Lemma dense_fresh (coll : gmap nat Point.t) :
  dense coll -> coll !! size coll = None.
Proof.
  intros Hd. destruct (coll !! size coll) eqn:H; [|done].
  assert (size coll < size coll); [|lia]. apply Hd. by rewrite H.
Qed.

Lemma write_points_dense (points : list Point.t) :
  forall coll : gmap nat Point.t,
    dense coll ->
    map Point.id points = seq (size coll) (length points) ->
    dense (write_points coll points)
    /\ size (write_points coll points) = size coll + length points
    /\ (forall i : nat,
          i < size coll -> write_points coll points !! i = coll !! i)
    /\ (forall (j : nat) (p : Point.t),
          points !! j = Some p ->
          write_points coll points !! (size coll + j) = Some p).
Proof.
  induction points as [|p points IH]; intros coll Hd Hids.
  - simpl. repeat split; try apply Hd; try lia; try done.
  - simpl in Hids. injection Hids as Hp Hids.
    pose proof (dense_fresh coll Hd) as Hfresh.
    assert (Hsize : size (<[Point.id p := p]> coll) = S (size coll)).
    { rewrite Hp. by apply map_size_insert_None. }
    assert (Hd' : dense (<[Point.id p := p]> coll)).
    { intros i. rewrite Hsize, Hp.
      destruct (decide (i = size coll)) as [->|Hne].
      - rewrite lookup_insert_eq. split; [lia|eauto].
      - rewrite lookup_insert_ne by done. rewrite (Hd i). lia. }
    rewrite <- Hsize in Hids.
    destruct (IH _ Hd' Hids) as (Hdense & Hsz & Hold & Hnew).
    unfold write_points in *. simpl. repeat split.
    + apply Hdense.
    + apply Hdense.
    + rewrite Hsz, Hsize. lia.
    + intros i Hi. rewrite Hold by lia.
      rewrite lookup_insert_ne by lia. done.
    + intros [|j] q Hq; simpl in Hq.
      * injection Hq as <-. rewrite Nat.add_0_r, Hold by lia.
        rewrite Hp. apply lookup_insert_eq.
      * replace (size coll + S j) with (size (<[Point.id p := p]> coll) + j)
          by lia.
        by apply Hnew.
Qed.

(** C7.  An ingestion that runs to its end writes one point per chunk, and
    the point at position [i] of the batch has the id [start_id + i], where
    [start_id] is the point count of the collection, or 0 when the count
    cannot be read.  When the count can be read and the ids of the collection
    are 0, 1, ..., up to its count, the ids are again without a gap after the
    ingestion, the points already stored are untouched, and the new points
    sit at the ids that follow the old count. *)
Theorem sequential_ingestion_ids (env : Env) (path : string) (w : World)
  (texts : list string) (chunks : list Chunk.t)
  (embeddings : list (list float)) :
  pdf_pages env path = Ok texts ->
  chunk_texts_from env (Text.basename path) 0 texts [] = Ok chunks ->
  encode env (map Chunk.text chunks) = Ok embeddings ->
  length embeddings = length chunks ->
  upsert_fault env (batch (start_id_of env w) chunks embeddings) = None ->
  process_pdf env path w
  = (Ok (length chunks),
     with_points w (batch (start_id_of env w) chunks embeddings))
  /\ map Point.id (batch (start_id_of env w) chunks embeddings)
     = seq (start_id_of env w) (length chunks)
  /\ (get_collection_fault env = None ->
      dense (collection w) ->
      start_id_of env w = size (collection w)
      /\ dense (collection
                  (with_points w (batch (start_id_of env w) chunks embeddings)))
      /\ size (collection
                 (with_points w (batch (start_id_of env w) chunks embeddings)))
         = size (collection w) + length chunks
      /\ (forall i : nat,
            i < size (collection w) ->
            collection
              (with_points w (batch (start_id_of env w) chunks embeddings))
              !! i
            = collection w !! i)
      /\ (forall (j : nat) (p : Point.t),
            batch (start_id_of env w) chunks embeddings !! j = Some p ->
            collection
              (with_points w (batch (start_id_of env w) chunks embeddings))
              !! (size (collection w) + j)
            = Some p)).
Proof.
  intros Hpages Hchunks Henc Hlen Hup.
  pose proof (batch_ids (start_id_of env w) chunks embeddings Hlen) as Hids.
  split; [|split].
  - unfold process_pdf, bind, load_pdf, chunk_text, lift.
    rewrite Hpages, Hchunks, read_start_id_eq.
    unfold embed_and_store, bind, lift, upsert, ret.
    rewrite Henc, append_points_batch, Hup. reflexivity.
  - exact Hids.
  - intros Hcount Hdense.
    assert (Hstart : start_id_of env w = size (collection w)).
    { unfold start_id_of. by rewrite Hcount. }
    split; [exact Hstart|].
    cbn [with_points collection].
    rewrite Hstart in *.
    replace (length chunks)
      with (length (batch (size (collection w)) chunks embeddings)) in *
      by (by rewrite <- (length_map Point.id), Hids, length_seq).
    by apply write_points_dense.
Qed.

Lemma dense_empty : dense ∅.
Proof.
  intros i. rewrite lookup_empty, map_size_empty. split; [|lia].
  by intros [? ?].
Qed.

Lemma sequential_ingestion_ids_witness :
  process_pdf plain_env "/data/a.pdf" empty_world = (Ok 5, world_after_a)
  /\ map Point.id
       (batch 0 sample_chunks_a
          (sample_encode (map Chunk.text sample_chunks_a)))
     = [0; 1; 2; 3; 4]
  /\ process_pdf plain_env "/data/b.pdf" world_after_a
     = (Ok 3, world_after_b)
  /\ map Point.id
       (batch 5 sample_chunks_b
          (sample_encode (map Chunk.text sample_chunks_b)))
     = [5; 6; 7]
  /\ dense (collection world_after_b)
  /\ size (collection world_after_b) = 8
  /\ (forall i : nat,
        i < 5 -> collection world_after_b !! i = collection world_after_a !! i).
Proof.
  destruct (sequential_ingestion_ids plain_env "/data/a.pdf" empty_world
              ["1 Alpha"; "2 Beta"; "3 Gamma"; "4 Delta"; "5 Epsilon"]
              sample_chunks_a
              (sample_encode (map Chunk.text sample_chunks_a))
              eq_refl eq_refl eq_refl eq_refl eq_refl)
    as (Hrun_a & Hids_a & Hrest_a).
  destruct (Hrest_a eq_refl dense_empty)
    as (_ & Hdense_a & Hsize_a & _ & _).
  change (size (collection world_after_a) = 0 + 5) in Hsize_a.
  change (dense (collection world_after_a)) in Hdense_a.
  assert (Hstart : start_id_of plain_env world_after_a = 5)
    by exact Hsize_a.
  destruct (sequential_ingestion_ids plain_env "/data/b.pdf" world_after_a
              ["Zeta"; "Eta"; "Theta"]
              sample_chunks_b
              (sample_encode (map Chunk.text sample_chunks_b))
              eq_refl eq_refl eq_refl eq_refl eq_refl)
    as (Hrun_b & Hids_b & Hrest_b).
  destruct (Hrest_b eq_refl Hdense_a)
    as (_ & Hdense_b & Hsize_b & Hold_b & _).
  rewrite Hstart in Hrun_b, Hids_b, Hdense_b, Hsize_b, Hold_b.
  rewrite Hsize_a in Hsize_b, Hold_b.
  exact (conj Hrun_a (conj Hids_a (conj Hrun_b (conj Hids_b
           (conj Hdense_b (conj Hsize_b Hold_b)))))).
Defined.

(** * Further properties of the pipeline *)

(** ** The chunker: counts, texts and failure *)

(** X1.  When the splitter returns [pieces t] for every text [t], the chunker
    returns as many chunks as there are pieces in all texts together, every
    chunk carries the given source, and the texts of the chunks are the
    cleaned pieces of the texts, flattened in order; the world is not
    touched. *)
Theorem chunk_text_counts (env : Env) (pieces : string -> list string)
  (texts : list string) (source : string) (w : World) :
  Forall (fun t => split_text env t = Ok (pieces t)) texts ->
  exists chunks : list Chunk.t,
    chunk_text env texts source w = (Ok chunks, w)
    /\ length chunks = sum_list_with (fun t => length (pieces t)) texts
    /\ Forall (fun c => Chunk.source c = source) chunks
    /\ map Chunk.text chunks = map cleaned_text (concat (map pieces texts)).
Proof.
  intros Hsplit. exists (chunks_in_order pieces source texts). split.
  - unfold chunk_text, lift.
    by rewrite (chunk_texts_from_eq env pieces source texts Hsplit).
  - apply (chunk_groups_facts pieces source texts 0).
Qed.

Lemma chunk_text_counts_witness :
  exists chunks : list Chunk.t,
    chunk_text plain_env ["12 Intro"; EmptyString; "Chapter 12"] "doc.pdf"
      empty_world
    = (Ok chunks, empty_world)
    /\ length chunks = 2
    /\ Forall (fun c => Chunk.source c = "doc.pdf") chunks
    /\ map Chunk.text chunks = ["Intro"; "Chapter 12"].
Proof.
  apply (chunk_text_counts plain_env split_whole
           ["12 Intro"; EmptyString; "Chapter 12"] "doc.pdf" empty_world).
  repeat constructor.
Defined.

Lemma chunk_texts_from_failure (env : Env) (pieces : string -> list string)
  (source : string) (bad : string) (after : list string) (e : exn)
  (before : list string) :
  Forall (fun t => split_text env t = Ok (pieces t)) before ->
  split_text env bad = Raise e ->
  forall (idx : nat) (acc : list Chunk.t),
    chunk_texts_from env source idx (before ++ bad :: after)%list acc
    = Raise e.
Proof.
  intros Hbefore Hbad.
  induction Hbefore as [|t before Ht _ IH]; intros idx acc; simpl.
  - by rewrite Hbad.
  - rewrite Ht. apply IH.
Qed.

(** X2.  When the splitter raises [e] on one text and returned for every text
    before it, the chunker raises [e]: the chunks already built from the
    earlier texts are not returned, and the texts after it are not split. *)
Theorem chunk_text_first_failure (env : Env) (pieces : string -> list string)
  (before after : list string) (bad source : string) (e : exn) (w : World) :
  Forall (fun t => split_text env t = Ok (pieces t)) before ->
  split_text env bad = Raise e ->
  chunk_text env (before ++ bad :: after)%list source w = (Raise e, w).
Proof.
  intros Hbefore Hbad. unfold chunk_text, lift.
  by rewrite (chunk_texts_from_failure env pieces source bad after e before).
Qed.

Lemma chunk_text_first_failure_witness :
  chunk_text picky_env ["12 Intro"; "bad page"; "Chapter 12"] "doc.pdf"
    empty_world
  = (Raise "tokenizer error", empty_world).
Proof.
  apply (chunk_text_first_failure picky_env split_whole ["12 Intro"]
           ["Chapter 12"] "bad page" "doc.pdf" "tokenizer error" empty_world).
  - repeat constructor.
  - reflexivity.
Defined.

(** ** The batch insert *)

Lemma write_points_other (points : list Point.t) :
  forall (coll : gmap nat Point.t) (i : nat),
    i ∉ map Point.id points ->
    write_points coll points !! i = coll !! i.
Proof.
  induction points as [|p points IH]; intros coll i Hi; [done|].
  simpl in Hi. apply not_elem_of_cons in Hi as [Hne Hi].
  unfold write_points in *. simpl. rewrite IH by done.
  by rewrite lookup_insert_ne.
Qed.

Lemma write_points_new (points : list Point.t) :
  forall (coll : gmap nat Point.t) (start j : nat) (p : Point.t),
    map Point.id points = seq start (length points) ->
    points !! j = Some p ->
    write_points coll points !! (start + j) = Some p.
Proof.
  induction points as [|q points IH]; intros coll start j p Hids Hj; [done|].
  simpl in Hids. injection Hids as Hq Hids.
  destruct j as [|j]; simpl in Hj.
  - injection Hj as ->. rewrite Nat.add_0_r.
    change (write_points (<[Point.id p := p]> coll) points !! start = Some p).
    rewrite write_points_other.
    + rewrite Hq. apply lookup_insert_eq.
    + rewrite Hids. rewrite list_elem_of_In, in_seq. lia.
  - change (write_points (<[Point.id q := q]> coll) points !! (start + S j)
            = Some p).
    replace (start + S j) with (S start + j) by lia. by apply IH.
Qed.

Lemma batch_length (start_id : nat) (chunks : list Chunk.t)
  (embeddings : list (list float)) :
  length (batch start_id chunks embeddings)
  = min (length chunks) (length embeddings).
Proof. unfold batch. by rewrite length_imap, length_zip_with. Qed.

Lemma batch_ids_zip (start_id : nat) (chunks : list Chunk.t)
  (embeddings : list (list float)) :
  map Point.id (batch start_id chunks embeddings)
  = seq start_id (length (batch start_id chunks embeddings)).
Proof.
  rewrite batch_length. unfold batch.
  change (map Point.id) with (fmap (M:=list) Point.id).
  rewrite fmap_imap. simpl.
  rewrite <- (list_fmap_id (seq start_id _)).
  replace (min (length chunks) (length embeddings))
    with (length (zip chunks embeddings)) by apply length_zip_with.
  rewrite <- (imap_seq (zip chunks embeddings) id start_id).
  apply imap_ext. done.
Qed.

Lemma embed_and_store_eq (env : Env) (chunks : list Chunk.t) (start_id : nat)
  (w : World) (embeddings : list (list float)) :
  encode env (map Chunk.text chunks) = Ok embeddings ->
  upsert_fault env (batch start_id chunks embeddings) = None ->
  embed_and_store env chunks start_id w
  = (Ok (start_id + length (batch start_id chunks embeddings)),
     with_points w (batch start_id chunks embeddings)).
Proof.
  intros Henc Hup. unfold embed_and_store, bind, lift, upsert, ret.
  rewrite Henc, append_points_batch, Hup. reflexivity.
Qed.

(** X3.  [embed_and_store] returns the next free id.  When the encoder and
    the server accept the batch, the value returned is [start_id] plus the
    number of points written, every id written lies from [start_id] up to,
    but not including, the value returned, and a second call that starts at
    the value returned leaves every point of the first batch in place. *)
Theorem embed_and_store_next_id (env : Env) (chunks1 chunks2 : list Chunk.t)
  (start_id : nat) (w : World) (embeddings1 embeddings2 : list (list float)) :
  encode env (map Chunk.text chunks1) = Ok embeddings1 ->
  encode env (map Chunk.text chunks2) = Ok embeddings2 ->
  upsert_fault env (batch start_id chunks1 embeddings1) = None ->
  upsert_fault env
    (batch (start_id + length (batch start_id chunks1 embeddings1))
       chunks2 embeddings2) = None ->
  exists (next_id last_id : nat) (w1 w2 : World),
    embed_and_store env chunks1 start_id w = (Ok next_id, w1)
    /\ next_id
       = start_id + min (length chunks1) (length embeddings1)
    /\ Forall (fun p => start_id <= Point.id p < next_id)
         (batch start_id chunks1 embeddings1)
    /\ embed_and_store env chunks2 next_id w1 = (Ok last_id, w2)
    /\ Forall (fun p => collection w2 !! Point.id p = Some p)
         (batch start_id chunks1 embeddings1).
Proof.
  intros Henc1 Henc2 Hup1 Hup2.
  pose proof (batch_ids_zip start_id chunks1 embeddings1) as Hids.
  assert (Hrange : Forall (fun p => start_id <= Point.id p
                     < start_id + length (batch start_id chunks1 embeddings1))
                     (batch start_id chunks1 embeddings1)).
  { apply Forall_forall. intros p Hp.
    assert (Hin : Point.id p ∈ map Point.id (batch start_id chunks1 embeddings1))
      by (by apply list_elem_of_fmap_2).
    rewrite Hids, list_elem_of_In, in_seq in Hin. lia. }
  eexists _, _, _, _. split; [by apply embed_and_store_eq|].
  split; [by rewrite batch_length|].
  split; [exact Hrange|].
  split; [by apply embed_and_store_eq|].
  apply Forall_forall. intros p Hp. cbn [with_points collection].
  rewrite Forall_forall in Hrange. specialize (Hrange p Hp).
  rewrite write_points_other.
  - apply list_elem_of_lookup in Hp as [j Hj].
    pose proof (write_points_new _ (collection w) start_id j p Hids Hj) as Hn.
    assert (Hidp : Point.id p = start_id + j).
    { unfold batch in Hj. rewrite list_lookup_imap in Hj.
      destruct (zip chunks1 embeddings1 !! j); simplify_eq/=. reflexivity. }
    by rewrite Hidp.
  - rewrite batch_ids_zip, list_elem_of_In, in_seq. lia.
Qed.

Lemma embed_and_store_next_id_witness :
  exists (next_id last_id : nat) (w1 w2 : World),
    embed_and_store plain_env sample_chunks_a 0 empty_world = (Ok next_id, w1)
    /\ next_id = 0 + min 5 5
    /\ Forall (fun p => 0 <= Point.id p < next_id)
         (batch 0 sample_chunks_a
            (sample_encode (map Chunk.text sample_chunks_a)))
    /\ embed_and_store plain_env sample_chunks_b next_id w1 = (Ok last_id, w2)
    /\ Forall (fun p => collection w2 !! Point.id p = Some p)
         (batch 0 sample_chunks_a
            (sample_encode (map Chunk.text sample_chunks_a))).
Proof.
  exact (embed_and_store_next_id plain_env sample_chunks_a sample_chunks_b 0
           empty_world (sample_encode (map Chunk.text sample_chunks_a))
           (sample_encode (map Chunk.text sample_chunks_b))
           eq_refl eq_refl eq_refl eq_refl).
Defined.

(** X4.  When the point count cannot be read, [process_pdf] starts at id 0:
    the batch has the ids 0, 1, ..., every point of the batch ends up in the
    collection under its position, replacing whatever was stored there, and
    the points at ids past the batch stay as they were. *)
Theorem unreadable_count_restarts_ids (env : Env) (path : string) (w : World)
  (texts : list string) (chunks : list Chunk.t)
  (embeddings : list (list float)) (e : exn) :
  get_collection_fault env = Some e ->
  pdf_pages env path = Ok texts ->
  chunk_texts_from env (Text.basename path) 0 texts [] = Ok chunks ->
  encode env (map Chunk.text chunks) = Ok embeddings ->
  upsert_fault env (batch 0 chunks embeddings) = None ->
  exists w' : World,
    process_pdf env path w = (Ok (length chunks), w')
    /\ map Point.id (batch 0 chunks embeddings)
       = seq 0 (min (length chunks) (length embeddings))
    /\ (forall (j : nat) (p : Point.t),
          batch 0 chunks embeddings !! j = Some p ->
          collection w' !! j = Some p)
    /\ (forall i : nat,
          min (length chunks) (length embeddings) <= i ->
          collection w' !! i = collection w !! i).
Proof.
  intros Hcount Hpages Hchunks Henc Hup.
  assert (Hstart : start_id_of env w = 0)
    by (unfold start_id_of; by rewrite Hcount).
  pose proof (batch_ids_zip 0 chunks embeddings) as Hids.
  exists (with_points w (batch 0 chunks embeddings)).
  split; [|split; [|split]].
  - unfold process_pdf, bind, load_pdf, chunk_text, lift.
    rewrite Hpages, Hchunks, read_start_id_eq, Hstart.
    by rewrite (embed_and_store_eq env chunks 0 w embeddings Henc Hup).
  - by rewrite Hids, batch_length.
  - intros j p Hj. cbn [with_points collection].
    apply (write_points_new _ (collection w) 0 j p Hids Hj).
  - intros i Hi. cbn [with_points collection].
    apply write_points_other.
    rewrite Hids, batch_length, list_elem_of_In, in_seq. lia.
Qed.

Lemma unreadable_count_restarts_ids_witness :
  exists w' : World,
    process_pdf (count_down plain_env) "/data/b.pdf" world_after_a
    = (Ok 3, w')
    /\ map Point.id
         (batch 0 sample_chunks_b
            (sample_encode (map Chunk.text sample_chunks_b)))
       = seq 0 (min 3 3)
    /\ (forall (j : nat) (p : Point.t),
          batch 0 sample_chunks_b
            (sample_encode (map Chunk.text sample_chunks_b)) !! j = Some p ->
          collection w' !! j = Some p)
    /\ (forall i : nat,
          min 3 3 <= i -> collection w' !! i = collection world_after_a !! i).
Proof.
  exact (unreadable_count_restarts_ids (count_down plain_env) "/data/b.pdf"
           world_after_a ["Zeta"; "Eta"; "Theta"] sample_chunks_b
           (sample_encode (map Chunk.text sample_chunks_b)) "timed out"
           eq_refl eq_refl eq_refl eq_refl eq_refl).
Defined.

(** ** Audio *)

(** X5.  The Whisper model is loaded at most once.  After a transcription
    that returned, the model is marked as loaded, and every later call
    returns what the transcription returns without consulting the loader,
    whatever the loader would do, and leaves the world as it is. *)
Theorem whisper_loaded_once (env : Env) (path : string) (w w1 : World)
  (transcript : string) :
  transcribe_audio env path w = (Ok transcript, w1) ->
  whisper_loaded w1 = true
  /\ collection w1 = collection w
  /\ llm_prompts w1 = llm_prompts w
  /\ forall (env2 : Env) (path2 : string),
       transcribe_audio env2 path2 w1 = (whisper_transcribe env2 path2, w1).
Proof.
  unfold transcribe_audio, bind, load_whisper_if_needed, lift.
  intros H.
  assert (Hw : whisper_loaded w1 = true /\ collection w1 = collection w
               /\ llm_prompts w1 = llm_prompts w).
  { destruct (whisper_loaded w) eqn:Hl.
    - injection H as _ <-. auto.
    - destruct (whisper_load env); [|discriminate].
      injection H as _ <-. auto. }
  destruct Hw as (Hl & Hc & Hp). repeat split; try done.
  intros env2 path2. rewrite Hl.
  destruct (whisper_transcribe env2 path2); reflexivity.
Qed.

Lemma whisper_loaded_once_witness :
  whisper_loaded (mkWorld ∅ true []) = true
  /\ collection (mkWorld ∅ true []) = collection empty_world
  /\ llm_prompts (mkWorld ∅ true []) = llm_prompts empty_world
  /\ forall (env2 : Env) (path2 : string),
       transcribe_audio env2 path2 (mkWorld ∅ true [])
       = (whisper_transcribe env2 path2, mkWorld ∅ true []).
Proof.
  exact (whisper_loaded_once plain_env "/data/talk.mp3" empty_world
           (mkWorld ∅ true []) "hello|world" eq_refl).
Defined.

(** X6.  When the Whisper model is not loaded and loading it raises [e],
    [process_audio] raises [e], the model stays unloaded, so that the next
    call tries to load it again, and nothing is written. *)
Theorem whisper_load_failure (env : Env) (path : string) (w : World)
  (e : exn) :
  whisper_loaded w = false ->
  whisper_load env = Raise e ->
  transcribe_audio env path w = (Raise e, w)
  /\ process_audio env path w = (Raise e, w).
Proof.
  intros Hl He.
  assert (Ht : transcribe_audio env path w = (Raise e, w)).
  { unfold transcribe_audio, bind, load_whisper_if_needed.
    by rewrite Hl, He. }
  split; [exact Ht|]. unfold process_audio, bind. by rewrite Ht.
Qed.

Lemma whisper_load_failure_witness :
  transcribe_audio (whisper_down plain_env) "/data/talk.mp3" empty_world
  = (Raise "model not found", empty_world)
  /\ process_audio (whisper_down plain_env) "/data/talk.mp3" empty_world
     = (Raise "model not found", empty_world).
Proof.
  exact (whisper_load_failure (whisper_down plain_env) "/data/talk.mp3"
           empty_world "model not found" eq_refl eq_refl).
Defined.

(** X7.  An audio ingestion that runs to its end treats the transcript as
    one text and stores one point per piece.  When the encoder returns one
    embedding per piece, [process_audio] returns the number of pieces, the
    batch has as many points as there are pieces, with the ids that start at
    the point count read after the transcription, and the point of piece [j]
    carries the embedding at position [j], the cleaned piece as text, the
    base name of the path as source, [original_index = 0] and
    [chunk_index = j]; that point is in the collection afterwards. *)
Theorem process_audio_stores_one_text (env : Env) (path transcript : string)
  (w w1 : World) (pieces : list string) (embeddings : list (list float)) :
  transcribe_audio env path w = (Ok transcript, w1) ->
  split_text env transcript = Ok pieces ->
  encode env (map cleaned_text pieces) = Ok embeddings ->
  length embeddings = length pieces ->
  upsert_fault env
    (batch (start_id_of env w1)
       (chunks_of_text (Text.basename path) 0 pieces) embeddings) = None ->
  process_audio env path w
  = (Ok (length pieces),
     with_points w1
       (batch (start_id_of env w1)
          (chunks_of_text (Text.basename path) 0 pieces) embeddings))
  /\ length (batch (start_id_of env w1)
               (chunks_of_text (Text.basename path) 0 pieces) embeddings)
     = length pieces
  /\ map Point.id
       (batch (start_id_of env w1)
          (chunks_of_text (Text.basename path) 0 pieces) embeddings)
     = seq (start_id_of env w1) (length pieces)
  /\ (forall (j : nat) (piece : string) (embedding : list float),
        pieces !! j = Some piece ->
        embeddings !! j = Some embedding ->
        batch (start_id_of env w1)
          (chunks_of_text (Text.basename path) 0 pieces) embeddings !! j
        = Some (Point.mk (start_id_of env w1 + j) embedding
                  (Payload.mk (Some (cleaned_text piece))
                     (Some (Text.basename path)) (Some 0) (Some j)))
        /\ collection
             (with_points w1
                (batch (start_id_of env w1)
                   (chunks_of_text (Text.basename path) 0 pieces) embeddings))
             !! (start_id_of env w1 + j)
           = Some (Point.mk (start_id_of env w1 + j) embedding
                     (Payload.mk (Some (cleaned_text piece))
                        (Some (Text.basename path)) (Some 0) (Some j)))).
Proof.
  intros Htr Hsplit Henc Hlen Hup.
  set (start := start_id_of env w1) in *.
  set (chunks := chunks_of_text (Text.basename path) 0 pieces) in *.
  assert (Hchunks : length chunks = length pieces)
    by (unfold chunks, chunks_of_text; by rewrite length_imap).
  assert (Hblen : length (batch start chunks embeddings) = length pieces)
    by (rewrite batch_length; lia).
  pose proof (batch_ids_zip start chunks embeddings) as Hids.
  split; [|split; [exact Hblen|split; [by rewrite Hids, Hblen|]]].
  - unfold process_audio, bind, chunk_text, lift. rewrite Htr. simpl.
    rewrite Hsplit, append_chunks_eq. simpl.
    fold (chunks_of_text (Text.basename path) 0 pieces). fold chunks.
    rewrite read_start_id_eq. fold start.
    rewrite (embed_and_store_eq env chunks start w1 embeddings).
    + by rewrite Hchunks.
    + unfold chunks. by rewrite chunks_of_text_texts.
    + exact Hup.
  - intros j piece embedding Hj Hemb.
    assert (Hpoint : batch start chunks embeddings !! j
              = Some (Point.mk (start + j) embedding
                        (Payload.mk (Some (cleaned_text piece))
                           (Some (Text.basename path)) (Some 0) (Some j)))).
    { unfold batch. rewrite list_lookup_imap.
      assert (Hzip : zip chunks embeddings !! j
                = Some (Chunk.mk (cleaned_text piece) (Text.basename path) 0 j,
                        embedding)).
      { apply lookup_zip_Some. split; [|exact Hemb].
        unfold chunks, chunks_of_text. by rewrite list_lookup_imap, Hj. }
      by rewrite Hzip. }
    split; [exact Hpoint|]. cbn [with_points collection].
    by apply write_points_new.
Qed.

Lemma process_audio_stores_one_text_witness :
  process_audio (sample_env (split_at "|") [] (fun _ => Ok "ok"))
    "/data/talk.mp3" empty_world
  = (Ok 2,
     with_points (mkWorld ∅ true [])
       (batch 0 (chunks_of_text "talk.mp3" 0 ["hello"; "world"])
          [[1%float; 0%float]; [1%float; 0%float]]))
  /\ length (batch 0 (chunks_of_text "talk.mp3" 0 ["hello"; "world"])
               [[1%float; 0%float]; [1%float; 0%float]])
     = 2
  /\ map Point.id
       (batch 0 (chunks_of_text "talk.mp3" 0 ["hello"; "world"])
          [[1%float; 0%float]; [1%float; 0%float]])
     = [0; 1].
Proof.
  destruct (process_audio_stores_one_text
              (sample_env (split_at "|") [] (fun _ => Ok "ok"))
              "/data/talk.mp3" "hello|world" empty_world (mkWorld ∅ true [])
              ["hello"; "world"] [[1%float; 0%float]; [1%float; 0%float]]
              eq_refl eq_refl eq_refl eq_refl eq_refl)
    as (Hrun & Hlen & Hids & _).
  exact (conj Hrun (conj Hlen Hids)).
Defined.

(** ** Retrieval and query: soundness, failures, read-only *)

Lemma filter_sublist_bool {A} (f : A -> bool) (l : list A) :
  sublist (List.filter f l) l.
Proof.
  induction l as [|x l IH]; simpl; [constructor|].
  destruct (f x); by constructor.
Qed.

(** X8.  Whatever the search returns, the chunks returned by [retrieve] are
    search results in the order of the search, none is added or repeated,
    each has a score that is not zero and is at least the threshold, and a
    result without a text or a source in its payload gets the empty text and
    the source ["unknown"]. *)
Theorem retrieve_sound (env : Env) (question : string) (top_k : Z)
  (score_threshold : float) (w : World) (v : list float)
  (rows : list (list float)) (points : list Scored.t) :
  encode env [question] = Ok (v :: rows) ->
  query_points env (collection w) v top_k = Ok points ->
  exists kept : list Scored.t,
    retrieve env question top_k score_threshold w
    = (Ok (map to_retrieved kept), w)
    /\ sublist kept points
    /\ Forall (fun p =>
                 truthy (Scored.score p) = true
                 /\ float_ge (Scored.score p) score_threshold = true
                 /\ Retrieved.score (to_retrieved p) = Scored.score p
                 /\ Retrieved.text (to_retrieved p)
                    = default EmptyString (Payload.text (Scored.payload p))
                 /\ Retrieved.source (to_retrieved p)
                    = default "unknown" (Payload.source (Scored.payload p)))
         kept.
Proof.
  intros He Hq. exists (List.filter (relevant score_threshold) points).
  split; [exact (retrieve_eq env question top_k score_threshold w v rows
                   points He Hq)|].
  split; [apply filter_sublist_bool|].
  apply Forall_forall. intros p Hp.
  apply list_elem_of_In, filter_In in Hp as [_ Hp].
  unfold relevant in Hp. apply andb_prop in Hp as [Ht Hg].
  repeat split; done.
Qed.

Lemma retrieve_sound_witness :
  exists kept : list Scored.t,
    retrieve
      (sample_env split_whole
         [Scored.mk 7 0.9 (Payload.mk None None None None);
          hit 1 0.2 "b" "doc.pdf"]
         (fun _ => Ok "ok"))
      "question" 5 0.3 empty_world
    = (Ok (map to_retrieved kept), empty_world)
    /\ sublist kept
         [Scored.mk 7 0.9 (Payload.mk None None None None);
          hit 1 0.2 "b" "doc.pdf"]
    /\ Forall (fun p =>
                 truthy (Scored.score p) = true
                 /\ float_ge (Scored.score p) 0.3 = true
                 /\ Retrieved.score (to_retrieved p) = Scored.score p
                 /\ Retrieved.text (to_retrieved p)
                    = default EmptyString (Payload.text (Scored.payload p))
                 /\ Retrieved.source (to_retrieved p)
                    = default "unknown" (Payload.source (Scored.payload p)))
         kept.
Proof.
  exact (retrieve_sound
           (sample_env split_whole
              [Scored.mk 7 0.9 (Payload.mk None None None None);
               hit 1 0.2 "b" "doc.pdf"]
              (fun _ => Ok "ok"))
           "question" 5 0.3 empty_world [1%float; 0%float] []
           [Scored.mk 7 0.9 (Payload.mk None None None None);
            hit 1 0.2 "b" "doc.pdf"]
           eq_refl eq_refl).
Defined.

(** X9.  When the encoder raises on the question, returns no row, or the
    search raises, [query] raises the same exception: no answer is made up,
    no prompt reaches the language model and the world is unchanged. *)
Theorem query_propagates_retrieval_failure (env : Env) (question : string)
  (top_k : Z) (score_threshold : float) (w w1 : World) (e : exn) :
  retrieve env question top_k score_threshold w = (Raise e, w1) ->
  query env question top_k score_threshold w = (Raise e, w)
  /\ (encode env [question] = Raise e
      \/ (encode env [question] = Ok []
          /\ e = "index 0 is out of bounds for axis 0 with size 0")
      \/ exists (v : list float) (rows : list (list float)),
           encode env [question] = Ok (v :: rows)
           /\ query_points env (collection w) v top_k = Raise e).
Proof.
  intros Hr. pose proof (retrieve_world _ _ _ _ _ _ _ Hr) as ->.
  split; [unfold query, bind; by rewrite Hr|].
  unfold retrieve, bind, lift, search, ret in Hr.
  destruct (encode env [question]) as [[|v rows]|e'] eqn:He; simpl in Hr.
  - right. left. split; [done|]. by injection Hr as <-.
  - right. right. exists v, rows. split; [done|].
    destruct (query_points env (collection w) v top_k); [discriminate|].
    by injection Hr as <-.
  - left. by injection Hr as <-.
Qed.

Lemma query_propagates_retrieval_failure_witness :
  query (search_down plain_env) "question" 5 0.3 empty_world
  = (Raise "connection refused", empty_world)
  /\ (encode (search_down plain_env) ["question"] = Raise "connection refused"
      \/ (encode (search_down plain_env) ["question"] = Ok []
          /\ "connection refused"
             = "index 0 is out of bounds for axis 0 with size 0")
      \/ exists (v : list float) (rows : list (list float)),
           encode (search_down plain_env) ["question"] = Ok (v :: rows)
           /\ query_points (search_down plain_env) (collection empty_world) v 5
              = Raise "connection refused").
Proof.
  exact (query_propagates_retrieval_failure (search_down plain_env) "question"
           5 0.3 empty_world empty_world "connection refused" eq_refl).
Defined.

(** X10.  [query] only reads the collection: whatever it returns or raises,
    the collection and the state of the Whisper model are as before, and at
    most one prompt was added to those that reached the language model. *)
Theorem query_read_only (env : Env) (question : string) (top_k : Z)
  (score_threshold : float) (w : World) :
  collection (snd (query env question top_k score_threshold w)) = collection w
  /\ whisper_loaded (snd (query env question top_k score_threshold w))
     = whisper_loaded w
  /\ (llm_prompts (snd (query env question top_k score_threshold w))
      = llm_prompts w
      \/ exists prompt : string,
           llm_prompts (snd (query env question top_k score_threshold w))
           = (llm_prompts w ++ [prompt])%list).
Proof.
  unfold query, bind.
  destruct (retrieve env question top_k score_threshold w) as [r w1] eqn:Hr.
  pose proof (retrieve_world _ _ _ _ _ _ _ Hr) as ->.
  destruct r as [[|c cs]|e]; cbn [is_empty]; try (simpl; by auto).
  rewrite generate_answer_eq. simpl. eauto.
Qed.

(** X11.  When the retrieval returns at least one chunk and the language
    model returns [response] for the prompt built from the question and the
    chunks, [query] returns [response] as the answer, with the chunks and
    their count, and exactly that one prompt was sent. *)
Theorem query_answers_from_context (env : Env) (question : string)
  (top_k : Z) (score_threshold : float) (w w1 : World)
  (chunks : list Retrieved.t) (response : string) :
  retrieve env question top_k score_threshold w = (Ok chunks, w1) ->
  chunks <> [] ->
  ollama_generate env (make_prompt question chunks) = Ok response ->
  query env question top_k score_threshold w
  = (Ok (QueryResult.mk response chunks (length chunks)),
     with_prompt w (make_prompt question chunks)).
Proof.
  intros Hr Hne Hllm. pose proof (retrieve_world _ _ _ _ _ _ _ Hr) as ->.
  unfold query, bind. rewrite Hr.
  destruct chunks as [|c cs]; [done|]. cbn [is_empty].
  by rewrite generate_answer_eq, Hllm.
Qed.

Lemma query_answers_from_context_witness :
  query
    (sample_env split_whole [hit 0 0.5 "a" "doc.pdf"]
       (fun _ => Ok "forty-two"))
    "question" 5 0.3 empty_world
  = (Ok (QueryResult.mk "forty-two" [Retrieved.mk "a" "doc.pdf" 0.5] 1),
     with_prompt empty_world
       (make_prompt "question" [Retrieved.mk "a" "doc.pdf" 0.5])).
Proof.
  apply (query_answers_from_context
           (sample_env split_whole [hit 0 0.5 "a" "doc.pdf"]
              (fun _ => Ok "forty-two"))
           "question" 5 0.3 empty_world empty_world
           [Retrieved.mk "a" "doc.pdf" 0.5] "forty-two").
  - reflexivity.
  - discriminate.
  - reflexivity.
Defined.

(** ** Creating the collection *)

Lemma collection_names_spec (server : gmap string Collection.t)
  (name : string) :
  name ∈ map fst (map_to_list server) <-> is_Some (server !! name).
Proof.
  change (map fst) with (fmap (M:=list) (@fst string Collection.t)).
  rewrite list_elem_of_fmap. split.
  - intros ([n info] & -> & Hin). apply elem_of_map_to_list in Hin. eauto.
  - intros [info Hinfo]. exists (name, info). split; [done|].
    by apply elem_of_map_to_list.
Qed.

(** X12.  [_ensure_collection_exists] never alters or removes a collection
    that exists: whatever the call returns or raises, every collection of the
    server is afterwards what it was before, the named one included. *)
Theorem ensure_keeps_collections (env : Env) (admin : Admin)
  (collection_name other : string) (server : gmap string Collection.t)
  (info : Collection.t) :
  server !! other = Some info ->
  snd (_ensure_collection_exists env admin collection_name server) !! other
  = Some info.
Proof.
  intros Hother. unfold _ensure_collection_exists.
  destruct (get_collections_fault admin); [done|].
  case_bool_decide as Hin; [done|].
  destruct (encode env ["test"]) as [rows|e]; [|done].
  destruct (first_row rows) as [row|e]; [|done].
  destruct (create_collection_fault admin collection_name (length row));
    [done|].
  simpl. rewrite lookup_insert_ne; [done|].
  intros ->. apply Hin, collection_names_spec. eauto.
Qed.

Lemma ensure_keeps_collections_witness :
  snd (_ensure_collection_exists plain_env calm_admin "rag_pipeline"
         sample_server) !! "other"
  = Some (Collection.mk 384 Collection.Cosine ∅).
Proof.
  exact (ensure_keeps_collections plain_env calm_admin "rag_pipeline" "other"
           sample_server (Collection.mk 384 Collection.Cosine ∅) eq_refl).
Defined.

(** X13.  When [_ensure_collection_exists] returns, the collection exists;
    if it did not exist before, it is new and empty, uses the cosine
    distance, and its vector size is the length of the embedding of the
    probe text ["test"].  A second call then changes nothing and does not
    need the encoder. *)
Theorem ensure_creates_once (env : Env) (admin : Admin)
  (collection_name : string) (server server' : gmap string Collection.t) :
  _ensure_collection_exists env admin collection_name server
  = (Ok tt, server') ->
  ((exists info : Collection.t,
      server !! collection_name = Some info /\ server' = server)
   \/ (server !! collection_name = None
       /\ exists (row : list float) (rows : list (list float)),
            encode env ["test"] = Ok (row :: rows)
            /\ server'
               = <[collection_name :=
                     Collection.mk (length row) Collection.Cosine ∅]> server))
  /\ forall env2 : Env,
       _ensure_collection_exists env2 admin collection_name server'
       = (Ok tt, server').
Proof.
  unfold _ensure_collection_exists.
  destruct (get_collections_fault admin) eqn:Hget; [discriminate|].
  case_bool_decide as Hin.
  - intros [= <-]. split.
    + left. apply collection_names_spec in Hin as [info Hinfo]. eauto.
    + intros env2. by rewrite bool_decide_true.
  - destruct (encode env ["test"]) as [[|row rows]|e]; try discriminate.
    simpl.
    destruct (create_collection_fault admin collection_name (length row));
      [discriminate|].
    intros [= <-]. split.
    + right. split; [|eauto].
      destruct (server !! collection_name) eqn:Hl; [|done].
      exfalso. apply Hin, collection_names_spec. eauto.
    + intros env2. rewrite bool_decide_true; [done|].
      apply collection_names_spec. rewrite lookup_insert_eq. eauto.
Qed.

Lemma ensure_creates_once_witness :
  ((exists info : Collection.t,
      sample_server !! "rag_pipeline" = Some info
      /\ <["rag_pipeline" := Collection.mk 2 Collection.Cosine ∅]> sample_server
         = sample_server)
   \/ (sample_server !! "rag_pipeline" = None
       /\ exists (row : list float) (rows : list (list float)),
            encode plain_env ["test"] = Ok (row :: rows)
            /\ <["rag_pipeline" := Collection.mk 2 Collection.Cosine ∅]>
                 sample_server
               = <["rag_pipeline" :=
                     Collection.mk (length row) Collection.Cosine ∅]>
                   sample_server))
  /\ forall env2 : Env,
       _ensure_collection_exists env2 calm_admin "rag_pipeline"
         (<["rag_pipeline" := Collection.mk 2 Collection.Cosine ∅]>
            sample_server)
       = (Ok tt,
          <["rag_pipeline" := Collection.mk 2 Collection.Cosine ∅]>
            sample_server).
Proof.
  apply (ensure_creates_once plain_env calm_admin "rag_pipeline" sample_server
           (<["rag_pipeline" := Collection.mk 2 Collection.Cosine ∅]>
              sample_server)).
  unfold _ensure_collection_exists. simpl.
  rewrite bool_decide_false; [reflexivity|].
  rewrite collection_names_spec. unfold sample_server.
  rewrite lookup_singleton_ne by done. by intros [? ?].
Defined.

(** ** The address of Ollama *)

Lemma replace_free (old new : string) (s : string) :
  occurs old s = false -> replace old new s = s.
Proof.
  unfold replace. induction s as [|c s IH]; [done|].
  cbn [occurs replace_from]. intros H.
  apply orb_false_elim in H as [Hp Ho]. rewrite Hp, IH by done. reflexivity.
Qed.

Lemma occurs_https_tail (host : string) :
  occurs "http://" host = false ->
  occurs "http://" ("https://" ++ host) = false.
Proof.
  intros H. change ("https://" ++ host)
    with (String "h" (String "t" (String "t" (String "p" (String "s"
           (String ":" (String "/" (String "/" host)))))))).
  cbn [occurs]. rewrite H.
  destruct host as [|c host]; [reflexivity|].
  cbn. reflexivity.
Qed.

Lemma strip_schemes (host : string) :
  occurs "http://" host = false ->
  occurs "https://" host = false ->
  replace "https://" EmptyString (replace "http://" EmptyString host) = host
  /\ replace "https://" EmptyString
       (replace "http://" EmptyString ("http://" ++ host)) = host
  /\ replace "https://" EmptyString
       (replace "http://" EmptyString ("https://" ++ host)) = host.
Proof.
  intros Hhttp Hhttps.
  pose proof (replace_free "http://" EmptyString host Hhttp) as H1.
  pose proof (replace_free "https://" EmptyString host Hhttps) as H2.
  split; [by rewrite H1|]. split.
  - change (replace "http://" EmptyString ("http://" ++ host))
      with (replace "http://" EmptyString host).
    by rewrite H1.
  - rewrite (replace_free "http://" EmptyString ("https://" ++ host))
      by (by apply occurs_https_tail).
    change (replace "https://" EmptyString ("https://" ++ host))
      with (replace "https://" EmptyString host).
    exact H2.
Qed.

(** X14.  The address of Ollama is taken from [OLLAMA_URL], else from
    [OLLAMA_HOST], else it is ["http://localhost:11434"].  When it is
    [host], ["http://" ++ host] or ["https://" ++ host] for a [host] that
    contains neither scheme, and it is not empty, [OLLAMA_HOST] is set to
    [host]; every other variable keeps its value. *)
Theorem ollama_host_without_scheme (environ : gmap string string)
  (url host : string) :
  (environ !! "OLLAMA_URL" = Some url
   \/ (environ !! "OLLAMA_URL" = None /\ environ !! "OLLAMA_HOST" = Some url)
   \/ (environ !! "OLLAMA_URL" = None /\ environ !! "OLLAMA_HOST" = None
       /\ url = "http://localhost:11434")) ->
  url = host \/ url = "http://" ++ host \/ url = "https://" ++ host ->
  nonempty url = true ->
  occurs "http://" host = false ->
  occurs "https://" host = false ->
  configure_ollama_host environ !! "OLLAMA_HOST" = Some host
  /\ forall key : string,
       key <> "OLLAMA_HOST" ->
       configure_ollama_host environ !! key = environ !! key.
Proof.
  intros Hsrc Hurl Hne Hhttp Hhttps.
  assert (Hval : OLLAMA_HOST environ = url).
  { unfold OLLAMA_HOST, getenv.
    destruct Hsrc as [H | [[H1 H2] | (H1 & H2 & ->)]].
    - by rewrite H.
    - by rewrite H1, H2.
    - by rewrite H1, H2. }
  unfold configure_ollama_host. rewrite Hval, Hne.
  destruct (strip_schemes host Hhttp Hhttps) as (Ha & Hb & Hc).
  split.
  - rewrite lookup_insert_eq. f_equal.
    destruct Hurl as [-> | [-> | ->]]; assumption.
  - intros key Hkey. by rewrite lookup_insert_ne.
Qed.

Lemma ollama_host_without_scheme_witness :
  configure_ollama_host {[ "OLLAMA_HOST" := "https://ollama:11434" ]}
    !! "OLLAMA_HOST"
  = Some "ollama:11434"
  /\ forall key : string,
       key <> "OLLAMA_HOST" ->
       configure_ollama_host {[ "OLLAMA_HOST" := "https://ollama:11434" ]}
         !! key
       = ({[ "OLLAMA_HOST" := "https://ollama:11434" ]}
            : gmap string string) !! key.
Proof.
  apply (ollama_host_without_scheme
           {[ "OLLAMA_HOST" := "https://ollama:11434" ]}
           "https://ollama:11434" "ollama:11434").
  - right. left. split; reflexivity.
  - right. right. reflexivity.
  - reflexivity.
  - reflexivity.
  - reflexivity.
Defined.

(** * Properties of the REST interface *)

(** ** File names *)

Example allowed_file_examples :
  Api.allowed_file "talk.MP3" = true
  /\ Api.allowed_file "archive.tar.gz" = false
  /\ Api.allowed_file "notes.pdf.exe" = false
  /\ Api.allowed_file "mp3" = false
  /\ Api.allowed_file "talk." = false
  /\ Api.strip "  what is  RAG? " = "what is  RAG?"
  /\ Api.path_join "/tmp" "a.pdf" = "/tmp/a.pdf"
  /\ Api.path_join "/tmp/" "a.pdf" = "/tmp/a.pdf"
  /\ Api.path_join "/tmp" "/etc/a.pdf" = "/etc/a.pdf".
Proof. repeat split; reflexivity. Qed.

Lemma after_last_none (sep : ascii) (s : string) :
  Api.contains_char sep s = false -> Api.after_last sep s = None.
Proof.
  induction s as [|c s IH]; simpl; [done|].
  intros H. apply orb_false_elim in H as [Hc Hs].
  by rewrite IH, Hc.
Qed.

Lemma after_last_app (sep : ascii) (stem extension : string) :
  Api.contains_char sep extension = false ->
  Api.after_last sep (stem ++ String sep extension) = Some extension
  /\ Api.contains_char sep (stem ++ String sep extension) = true.
Proof.
  intros Hext. induction stem as [|c stem [IH1 IH2]].
  - change (EmptyString ++ String sep extension) with (String sep extension).
    simpl. rewrite (after_last_none sep extension Hext), Ascii.eqb_refl.
    done.
  - change (String c stem ++ String sep extension)
      with (String c (stem ++ String sep extension)).
    simpl. rewrite IH1, IH2. split; [done|apply orb_true_r].
Qed.

(** X15.  [allowed_file] looks at what follows the last dot only, and
    ignores its case: a name [stem.extension] whose extension holds no dot is
    allowed exactly when the lower-cased extension is one of the seven
    allowed ones, whatever the stem; and a name without a dot is refused,
    even when it is itself an allowed extension. *)
Theorem allowed_file_by_last_extension (stem extension : string) :
  Api.contains_char "." extension = false ->
  Api.allowed_file (stem ++ "." ++ extension)
  = bool_decide (Api.lower extension ∈ Api.ALLOWED_EXTENSIONS)
  /\ Api.allowed_file extension = false.
Proof.
  intros Hext. unfold Api.allowed_file. split.
  - change (stem ++ "." ++ extension) with (stem ++ String "." extension).
    destruct (after_last_app "." stem extension Hext) as [-> ->]. done.
  - by rewrite Hext.
Qed.

Lemma allowed_file_by_last_extension_witness :
  Api.allowed_file ("my.talk" ++ "." ++ "FLAC")
  = bool_decide (Api.lower "FLAC" ∈ Api.ALLOWED_EXTENSIONS)
  /\ Api.allowed_file "FLAC" = false.
Proof.
  exact (allowed_file_by_last_extension "my.talk" "FLAC" eq_refl).
Defined.

Lemma lower_char_dot (c : ascii) :
  Api.lower_char c = "."%char -> c = "."%char.
Proof.
  destruct c as [[] [] [] [] [] [] [] []]; vm_compute; congruence.
Qed.

Lemma lower_no_dot (s : string) :
  Api.contains_char "." (Api.lower s) = false ->
  Api.contains_char "." s = false.
Proof.
  induction s as [|c s IH]; simpl; [done|].
  intros H. apply orb_false_elim in H as [Hc Hs]. rewrite IH by done.
  destruct (Ascii.eqb c ".") eqn:Heq; [|done].
  apply Ascii.eqb_eq in Heq as ->. done.
Qed.

Lemma endswith_pdf (name : string) :
  Api.endswith (Api.lower name) ".pdf" = true ->
  exists stem extension : string,
    name = stem ++ String "." extension /\ Api.lower extension = "pdf".
Proof.
  induction name as [|c name IH]; [done|].
  cbn [Api.lower Api.endswith]. intros H.
  apply orb_prop in H as [H|H].
  - apply String.eqb_eq in H. injection H as Hc Hn.
    apply lower_char_dot in Hc as ->. exists EmptyString, name. done.
  - destruct (IH H) as (stem & extension & -> & Hl).
    exists (String c stem), extension. done.
Qed.

(** X16.  Every file name that passes the test of [upload_pdf], its
    lower-cased form ends with [.pdf], also passes [allowed_file], the test
    of [upload_media]: the media view accepts PDF files and hands them to the
    transcriber. *)
Theorem pdf_names_pass_allowed_file (name : string) :
  Api.endswith (Api.lower name) ".pdf" = true ->
  Api.allowed_file name = true.
Proof.
  intros H. destruct (endswith_pdf name H) as (stem & extension & -> & Hl).
  assert (Hdot : Api.contains_char "." extension = false).
  { apply lower_no_dot. by rewrite Hl. }
  unfold Api.allowed_file.
  destruct (after_last_app "." stem extension Hdot) as [-> ->].
  rewrite Hl. done.
Qed.

Lemma pdf_names_pass_allowed_file_witness :
  Api.allowed_file "Report.v2.PDF" = true.
Proof. exact (pdf_names_pass_allowed_file "Report.v2.PDF" eq_refl). Defined.

(** ** Shown text and stripped questions *)

Lemma first_chars_length (n : nat) (s : string) :
  String.length (Api.first_chars n s) <= n.
Proof.
  revert s. induction n as [|n IH]; intros [|c s]; simpl; try lia.
  specialize (IH s). lia.
Qed.

Lemma first_chars_all (n : nat) (s : string) :
  String.length s <= n -> Api.first_chars n s = s.
Proof.
  revert s. induction n as [|n IH]; intros [|c s]; simpl; try done; try lia.
  intros H. rewrite IH by lia. done.
Qed.

Lemma first_chars_app (n : nat) (s t : string) :
  String.length s = n -> Api.first_chars n (s ++ t) = s.
Proof.
  revert s. induction n as [|n IH]; intros [|c s] H; try discriminate.
  - reflexivity.
  - change (String c s ++ t) with (String c (s ++ t)). simpl.
    rewrite IH; [done|]. simpl in H. lia.
Qed.

Lemma first_chars_exact (n : nat) (s : string) :
  n <= String.length s -> String.length (Api.first_chars n s) = n.
Proof.
  revert s. induction n as [|n IH]; intros [|c s]; simpl; try done; try lia.
  intros H. rewrite IH by lia. done.
Qed.

Lemma string_length_app (s t : string) :
  String.length (s ++ t) = String.length s + String.length t.
Proof.
  induction s as [|c s IH]; [done|].
  change (String c s ++ t) with (String c (s ++ t)). simpl. by rewrite IH.
Qed.

Lemma shown_text_length (text : string) :
  String.length (Api.shown_text text) <= 203.
Proof.
  unfold Api.shown_text.
  destruct (200 <? String.length text)%nat eqn:Hlen.
  - rewrite string_length_app. pose proof (first_chars_length 200 text).
    change (String.length "...") with 3. lia.
  - apply Nat.ltb_ge in Hlen. lia.
Qed.

(** X17.  The text shown for a chunk has at most 203 characters and begins
    with the first 200 characters of the chunk's text: a text of at most 200
    characters is shown whole, a longer one is cut after 200 characters and
    three dots are added. *)
Theorem shown_text_bounded (text : string) :
  String.length (Api.shown_text text) <= 203
  /\ Api.first_chars 200 (Api.shown_text text) = Api.first_chars 200 text
  /\ ((String.length text <= 200 /\ Api.shown_text text = text)
      \/ (200 < String.length text
          /\ Api.shown_text text = Api.first_chars 200 text ++ "...")).
Proof.
  unfold Api.shown_text.
  destruct (200 <? String.length text)%nat eqn:Hlen.
  - apply Nat.ltb_lt in Hlen.
    pose proof (first_chars_exact 200 text) as Hex.
    split; [|split].
    + rewrite string_length_app, Hex by lia. simpl. lia.
    + rewrite first_chars_app; [done|]. apply Hex. lia.
    + right. done.
  - apply Nat.ltb_ge in Hlen. split; [lia|]. split; [done|]. left. done.
Qed.

Lemma strip_blank (text : string) :
  Text.all_chars Text.is_space text = true -> Api.strip text = EmptyString.
Proof.
  intros H. unfold Api.strip.
  apply skip_empty_iff in H. by rewrite H.
Qed.

(** ** The question views *)

Lemma query_cases (env : Env) (question : string) (top_k : Z)
  (score_threshold : float) (w : World) :
  match fst (retrieve env question top_k score_threshold w) with
  | Raise e => query env question top_k score_threshold w = (Raise e, w)
  | Ok [] =>
      query env question top_k score_threshold w
      = (Ok (QueryResult.mk no_information [] 0), w)
  | Ok (c :: cs) =>
      query env question top_k score_threshold w
      = (Ok (QueryResult.mk
               match ollama_generate env (make_prompt question (c :: cs)) with
               | Ok response => response
               | Raise e => "Error generating answer: " ++ e
               end
               (c :: cs) (length (c :: cs))),
         with_prompt w (make_prompt question (c :: cs)))
  end.
Proof.
  destruct (retrieve env question top_k score_threshold w) as [r w1] eqn:Hr.
  pose proof (retrieve_world _ _ _ _ _ _ _ Hr) as ->.
  unfold query, bind. rewrite Hr. simpl.
  destruct r as [[|c cs]|e]; cbn [is_empty]; try done.
  by rewrite generate_answer_eq.
Qed.

Lemma answer_cases (host : Api.Host) (env : Env) (question : string)
  (top_k : option Z) (score_threshold : option float) (site : Api.Site) :
  exists (response : Api.Response) (w : World),
    Api.answer host env question top_k score_threshold site
    = (Ok response, Api.mkSite w (Api.temp_files site))
    /\ collection w = collection (Api.pipeline site)
    /\ (snd response = 200 \/ snd response = 500)
    /\ match fst response with
       | Api.Answered q a n chunks =>
           q = question /\ n = length chunks
           /\ Forall (fun c => String.length (Api.Shown.text c) <= 203) chunks
       | Api.Failure error _ => error = "Query failed"
       | Api.Uploaded _ _ _ => False
       end.
Proof.
  unfold Api.answer, Api.pipeline_query.
  pose proof (query_cases env question (default 5%Z top_k)
                (default 0.3%float score_threshold) (Api.pipeline site)) as H.
  destruct (fst (retrieve env question (default 5%Z top_k)
                   (default 0.3%float score_threshold) (Api.pipeline site)))
    as [[|c cs]|e]; rewrite H; eexists _, _; (split; [reflexivity|]);
    cbn [fst snd with_prompt collection]; (split; [reflexivity|]);
    (split; [auto|]); try done.
  split; [reflexivity|].
  cbn [QueryResult.num_chunks QueryResult.chunks].
  split; [by rewrite length_map|].
  apply Forall_forall. intros s Hs.
  apply list_elem_of_In, in_map_iff in Hs as (r & <- & _).
  apply shown_text_length.
Qed.

Lemma strip_idempotent (s : string) : Api.strip (Api.strip s) = Api.strip s.
Proof.
  unfold Api.strip.
  assert (Hr : forall t, Api.rstrip (Api.rstrip t) = Api.rstrip t).
  { induction t as [|c t IH]; [done|]. simpl.
    destruct (Api.rstrip t) as [|c' r] eqn:Ht.
    - destruct (Text.is_space c) eqn:Hc; [done|]. simpl. by rewrite Hc.
    - simpl in *. rewrite IH. done. }
  assert (Hs : forall t,
            Text.starts_with Text.is_space t = false ->
            Text.starts_with Text.is_space (Api.rstrip t) = false).
  { intros [|c t]; [done|]. simpl. intros Hc.
    destruct (Api.rstrip t); simpl; by rewrite ?Hc. }
  destruct (skip_split Text.is_space s) as (_ & _ & _ & Hstart).
  apply Hs in Hstart.
  destruct (Api.rstrip (Text.skip Text.is_space s)) as [|c r] eqn:Hrs;
    [done|].
  simpl in Hstart. cbn [Text.skip]. rewrite Hstart, <- Hrs. apply Hr.
Qed.

Lemma settled_answer (host : Api.Host) (env : Env) (text : string)
  (top_k : option Z) (score_threshold : option float) (site : Api.Site) :
  Api.settled site
    (Api.answer host env (Api.strip text) top_k score_threshold site).
Proof.
  destruct (answer_cases host env (Api.strip text) top_k score_threshold site)
    as (response & w & Heq & Hcoll & Hstatus & Hbody).
  exists response, w. split; [exact Heq|]. split; [exact Hcoll|].
  split; [destruct Hstatus; auto|].
  destruct (fst response); try done.
  destruct Hbody as (-> & Hn & Hall).
  split; [apply strip_idempotent|done].
Qed.

Lemma settled_refusal (error message : string) (site : Api.Site) :
  Api.settled site (Ok (Api.Failure error message, 400), site).
Proof.
  exists (Api.Failure error message, 400), (Api.pipeline site).
  destruct site. simpl. repeat split; auto.
Qed.

(** X18.  The two question views always answer: for every request they
    return a response with status 200, 400 or 500 and never raise; they
    leave the collection and the temporary files as they are; and in a
    response with an answer the question is stripped of surrounding
    whitespace, [num_chunks_retrieved] is the number of chunks listed, and
    no text shown is longer than 203 characters. *)
Theorem question_views_always_answer (host : Api.Host) (env : Env)
  (is_json : bool) (data : option Api.Fields) (args : Api.Fields)
  (site : Api.Site) :
  Api.settled site (Api.query host env is_json data site)
  /\ Api.settled site (Api.answer_question host env args site).
Proof.
  split.
  - unfold Api.query. destruct is_json; simpl; [|apply settled_refusal].
    destruct (data ≫= Api.question) as [text|]; [|apply settled_refusal].
    destruct (nonempty (Api.strip text)); simpl;
      [apply settled_answer|apply settled_refusal].
  - unfold Api.answer_question.
    destruct (Api.question args) as [[|c text]|]; try apply settled_refusal.
    destruct (nonempty (Api.strip (String c text))); simpl;
      [apply settled_answer|apply settled_refusal].
Qed.

(** X19.  A question that is not empty and holds nothing but whitespace is
    refused by both question views with status 400 and the error
    ["Empty question"]; the pipeline is not called, so the site is
    unchanged. *)
Theorem blank_question_refused (host : Api.Host) (env : Env) (text : string)
  (top_k : option Z) (score_threshold : option float) (site : Api.Site) :
  nonempty text = true ->
  Text.all_chars Text.is_space text = true ->
  Api.query host env true
    (Some (Api.mkFields (Some text) top_k score_threshold)) site
  = (Ok (Api.Failure "Empty question" "Question cannot be empty", 400), site)
  /\ Api.answer_question host env
       (Api.mkFields (Some text) top_k score_threshold) site
     = (Ok (Api.Failure "Empty question" "Question cannot be empty", 400),
        site).
Proof.
  intros Hne Hblank. pose proof (strip_blank text Hblank) as Hs.
  unfold Api.query, Api.answer_question. simpl.
  destruct text as [|c text]; [discriminate|]. by rewrite Hs.
Qed.

Lemma blank_question_refused_witness :
  Api.query Api.plain_host plain_env true
    (Some (Api.mkFields (Some "   ") None None)) Api.empty_site
  = (Ok (Api.Failure "Empty question" "Question cannot be empty", 400),
     Api.empty_site)
  /\ Api.answer_question Api.plain_host plain_env
       (Api.mkFields (Some "   ") None None) Api.empty_site
     = (Ok (Api.Failure "Empty question" "Question cannot be empty", 400),
        Api.empty_site).
Proof.
  exact (blank_question_refused Api.plain_host plain_env "   " None None
           Api.empty_site eq_refl eq_refl).
Defined.

(** X20.  For a question that is not empty, [GET /answer] and [POST /query]
    with a JSON body give the same outcome when they are given the same
    question, [top_k] and [score_threshold]. *)
Theorem question_views_agree (host : Api.Host) (env : Env) (text : string)
  (top_k : option Z) (score_threshold : option float) (site : Api.Site) :
  nonempty text = true ->
  Api.answer_question host env
    (Api.mkFields (Some text) top_k score_threshold) site
  = Api.query host env true
      (Some (Api.mkFields (Some text) top_k score_threshold)) site.
Proof.
  intros Hne. destruct text as [|c text]; [discriminate|]. reflexivity.
Qed.

Lemma question_views_agree_witness :
  Api.answer_question Api.plain_host plain_env
    (Api.mkFields (Some " why? ") (Some 3%Z) None) Api.empty_site
  = Api.query Api.plain_host plain_env true
      (Some (Api.mkFields (Some " why? ") (Some 3%Z) None)) Api.empty_site.
Proof.
  exact (question_views_agree Api.plain_host plain_env " why? " (Some 3%Z)
           None Api.empty_site eq_refl).
Defined.

(** X21.  A failure of the language model does not fail the request.  When
    the retrieval for the stripped question returns at least one chunk and
    the language model raises [e], [POST /query] answers with status 200,
    the answer ["Error generating answer: "] followed by [e], and the
    retrieved chunks in their order, each with its source, its shown text
    and its rounded score. *)
Theorem query_view_absorbs_llm_failure (host : Api.Host) (env : Env)
  (text : string) (top_k : option Z) (score_threshold : option float)
  (site : Api.Site) (chunks : list Retrieved.t) (w1 : World) (e : exn) :
  nonempty (Api.strip text) = true ->
  retrieve env (Api.strip text) (default 5%Z top_k)
    (default 0.3%float score_threshold) (Api.pipeline site)
  = (Ok chunks, w1) ->
  chunks <> [] ->
  ollama_generate env (make_prompt (Api.strip text) chunks) = Raise e ->
  Api.query host env true
    (Some (Api.mkFields (Some text) top_k score_threshold)) site
  = (Ok (Api.Answered (Api.strip text) ("Error generating answer: " ++ e)
           (length chunks)
           (map (fun c =>
                   Api.Shown.mk (Api.shown_text (Retrieved.text c))
                     (Retrieved.source c)
                     (Api.round4 host (Retrieved.score c))) chunks),
         200),
     Api.mkSite
       (with_prompt (Api.pipeline site) (make_prompt (Api.strip text) chunks))
       (Api.temp_files site)).
Proof.
  intros Hne Hr Hchunks Hllm.
  unfold Api.query. simpl. rewrite Hne. simpl.
  unfold Api.answer, Api.pipeline_query.
  pose proof (query_cases env (Api.strip text) (default 5%Z top_k)
                (default 0.3%float score_threshold) (Api.pipeline site)) as H.
  rewrite Hr in H. simpl in H.
  destruct chunks as [|c cs]; [done|]. rewrite H, Hllm. reflexivity.
Qed.

Lemma query_view_absorbs_llm_failure_witness :
  Api.query Api.plain_host
    (sample_env split_whole [hit 0 0.5 "a" "doc.pdf"]
       (fun _ => Raise "connection refused"))
    true (Some (Api.mkFields (Some " why? ") None None)) Api.empty_site
  = (Ok (Api.Answered "why?" "Error generating answer: connection refused" 1
           [Api.Shown.mk "a" "doc.pdf" 0.5], 200),
     Api.mkSite
       (with_prompt empty_world
          (make_prompt "why?" [Retrieved.mk "a" "doc.pdf" 0.5]))
       ∅).
Proof.
  apply (query_view_absorbs_llm_failure Api.plain_host
           (sample_env split_whole [hit 0 0.5 "a" "doc.pdf"]
              (fun _ => Raise "connection refused"))
           " why? " None None Api.empty_site
           [Retrieved.mk "a" "doc.pdf" 0.5] empty_world "connection refused").
  - reflexivity.
  - reflexivity.
  - discriminate.
  - reflexivity.
Defined.

(** X22.  When the retrieval for the stripped question raises [e], an
    encoder or a search failure, [POST /query] answers with status 500, the
    error ["Query failed"] and the message [e], and the site is unchanged. *)
Theorem query_view_reports_failure (host : Api.Host) (env : Env)
  (text : string) (top_k : option Z) (score_threshold : option float)
  (site : Api.Site) (w1 : World) (e : exn) :
  nonempty (Api.strip text) = true ->
  retrieve env (Api.strip text) (default 5%Z top_k)
    (default 0.3%float score_threshold) (Api.pipeline site)
  = (Raise e, w1) ->
  Api.query host env true
    (Some (Api.mkFields (Some text) top_k score_threshold)) site
  = (Ok (Api.Failure "Query failed" e, 500), site).
Proof.
  intros Hne Hr.
  unfold Api.query. simpl. rewrite Hne. simpl.
  unfold Api.answer, Api.pipeline_query.
  pose proof (query_cases env (Api.strip text) (default 5%Z top_k)
                (default 0.3%float score_threshold) (Api.pipeline site)) as H.
  rewrite Hr in H. simpl in H. rewrite H. by destruct site.
Qed.

Lemma query_view_reports_failure_witness :
  Api.query Api.plain_host (search_down plain_env) true
    (Some (Api.mkFields (Some "why?") None None)) Api.empty_site
  = (Ok (Api.Failure "Query failed" "connection refused", 500),
     Api.empty_site).
Proof.
  exact (query_view_reports_failure Api.plain_host (search_down plain_env)
           "why?" None None Api.empty_site empty_world "connection refused"
           eq_refl eq_refl).
Defined.

(** ** The upload views *)

Set Warnings "-clear-no-such-hyp".

Lemma remove_if_exists_ok (host : Api.Host) (filepath : string)
  (files : gset string) :
  Api.remove_fault host filepath = None ->
  Api.remove_if_exists host filepath files
  = (Ok tt, files ∖ {[ filepath ]}).
Proof.
  intros Hrm. unfold Api.remove_if_exists. rewrite Hrm.
  destruct (bool_decide (filepath ∈ files)) eqn:Hin; [done|].
  apply bool_decide_eq_false in Hin. f_equal. set_solver.
Qed.

Lemma save_and_process_cleans (host : Api.Host) (process : string -> M nat)
  (message name : string) (site : Api.Site) :
  Api.remove_fault host
    (Api.path_join (Api.UPLOAD_FOLDER host) (Api.secure_filename host name))
  = None ->
  exists (response : Api.Response) (w : World),
    Api.save_and_process host process message name site
    = (Ok response,
       Api.mkSite w
         (Api.temp_files site
          ∖ {[ Api.path_join (Api.UPLOAD_FOLDER host)
                 (Api.secure_filename host name) ]}))
    /\ (snd response = 200 \/ snd response = 500).
Proof.
  intros Hrm. unfold Api.save_and_process.
  set (filepath := Api.path_join _ _) in *.
  destruct (Api.save_fault host filepath) as [[e partial]|].
  - unfold Api.processing_failed. rewrite remove_if_exists_ok by done.
    exists (Api.Failure "Processing failed" e, 500), (Api.pipeline site).
    split; [|right; reflexivity].
    do 2 f_equal. destruct partial; set_solver.
  - destruct (process filepath (Api.pipeline site)) as [[n|e] w].
    + rewrite remove_if_exists_ok by done.
      exists (Api.Uploaded message (Api.secure_filename host name) n, 200), w.
      split; [|left; reflexivity]. do 2 f_equal. set_solver.
    + unfold Api.processing_failed. rewrite remove_if_exists_ok by done.
      exists (Api.Failure "Processing failed" e, 500), w.
      split; [|right; reflexivity]. do 2 f_equal. set_solver.
Qed.

(** X23.  [upload_pdf] does not leave its temporary file behind.  For a
    name that passes its tests, and when [os.remove] does not raise on the
    temporary path, the view returns a response with status 200 or 500,
    whether saving, processing or both failed or not, and afterwards the
    temporary files are those from before without that path. *)
Theorem upload_pdf_cleans_up (host : Api.Host) (env : Env) (name : string)
  (site : Api.Site) :
  nonempty name = true ->
  Api.endswith (Api.lower name) ".pdf" = true ->
  Api.remove_fault host
    (Api.path_join (Api.UPLOAD_FOLDER host) (Api.secure_filename host name))
  = None ->
  exists (response : Api.Response) (w : World),
    Api.upload_pdf host env (Some name) site
    = (Ok response,
       Api.mkSite w
         (Api.temp_files site
          ∖ {[ Api.path_join (Api.UPLOAD_FOLDER host)
                 (Api.secure_filename host name) ]}))
    /\ (snd response = 200 \/ snd response = 500).
Proof.
  intros Hne Hpdf Hrm. unfold Api.upload_pdf. rewrite Hne, Hpdf. simpl.
  by apply save_and_process_cleans.
Qed.

Lemma upload_pdf_cleans_up_witness :
  exists (response : Api.Response) (w : World),
    Api.upload_pdf Api.plain_host plain_env (Some "a.pdf")
      (Api.mkSite empty_world {[ "/tmp/a.pdf"; "/tmp/keep.txt" ]})
    = (Ok response,
       Api.mkSite w
         (({[ "/tmp/a.pdf"; "/tmp/keep.txt" ]} : gset string)
          ∖ {[ "/tmp/a.pdf" ]}))
    /\ (snd response = 200 \/ snd response = 500).
Proof.
  exact (upload_pdf_cleans_up Api.plain_host plain_env "a.pdf"
           (Api.mkSite empty_world {[ "/tmp/a.pdf"; "/tmp/keep.txt" ]})
           eq_refl eq_refl eq_refl).
Defined.

(** X24.  [upload_media] does not leave its temporary file behind either:
    for a name that [allowed_file] accepts, and when [os.remove] does not
    raise on the temporary path, it returns a response with status 200 or
    500 and the temporary files are those from before without that path. *)
Theorem upload_media_cleans_up (host : Api.Host) (env : Env) (name : string)
  (site : Api.Site) :
  nonempty name = true ->
  Api.allowed_file name = true ->
  Api.remove_fault host
    (Api.path_join (Api.UPLOAD_FOLDER host) (Api.secure_filename host name))
  = None ->
  exists (response : Api.Response) (w : World),
    Api.upload_media host env (Some name) site
    = (Ok response,
       Api.mkSite w
         (Api.temp_files site
          ∖ {[ Api.path_join (Api.UPLOAD_FOLDER host)
                 (Api.secure_filename host name) ]}))
    /\ (snd response = 200 \/ snd response = 500).
Proof.
  intros Hne Hok Hrm. unfold Api.upload_media. rewrite Hne, Hok. simpl.
  by apply save_and_process_cleans.
Qed.

Lemma upload_media_cleans_up_witness :
  exists (response : Api.Response) (w : World),
    Api.upload_media Api.plain_host plain_env (Some "talk.mp3")
      Api.empty_site
    = (Ok response,
       Api.mkSite w ((∅ : gset string) ∖ {[ "/tmp/talk.mp3" ]}))
    /\ (snd response = 200 \/ snd response = 500).
Proof.
  exact (upload_media_cleans_up Api.plain_host plain_env "talk.mp3"
           Api.empty_site eq_refl eq_refl eq_refl).
Defined.

(** X25.  The response of [upload_pdf] follows the pipeline.  For a name
    that passes its tests, when the file is saved and removed without an
    exception: if [process_pdf] returns [n] on the temporary path, the view
    answers with status 200, the secured file name and
    [chunks_processed = n]; if it raises [e], the view answers with status
    500, the error ["Processing failed"] and the message [e].  The world
    of the pipeline is the one [process_pdf] left. *)
Theorem upload_pdf_follows_pipeline (host : Api.Host) (env : Env)
  (name : string) (site : Api.Site) :
  nonempty name = true ->
  Api.endswith (Api.lower name) ".pdf" = true ->
  Api.save_fault host
    (Api.path_join (Api.UPLOAD_FOLDER host) (Api.secure_filename host name))
  = None ->
  Api.remove_fault host
    (Api.path_join (Api.UPLOAD_FOLDER host) (Api.secure_filename host name))
  = None ->
  Api.upload_pdf host env (Some name) site
  = (Ok match fst (process_pdf env
                     (Api.path_join (Api.UPLOAD_FOLDER host)
                        (Api.secure_filename host name))
                     (Api.pipeline site)) with
        | Ok n =>
            (Api.Uploaded "PDF processed successfully"
               (Api.secure_filename host name) n, 200)
        | Raise e => (Api.Failure "Processing failed" e, 500)
        end,
     Api.mkSite
       (snd (process_pdf env
               (Api.path_join (Api.UPLOAD_FOLDER host)
                  (Api.secure_filename host name))
               (Api.pipeline site)))
       (Api.temp_files site
        ∖ {[ Api.path_join (Api.UPLOAD_FOLDER host)
               (Api.secure_filename host name) ]})).
Proof.
  intros Hne Hpdf Hsave Hrm. unfold Api.upload_pdf. rewrite Hne, Hpdf. simpl.
  unfold Api.save_and_process. rewrite Hsave.
  set (filepath := Api.path_join _ _) in *.
  destruct (process_pdf env filepath (Api.pipeline site)) as [[n|e] w]; simpl.
  - rewrite remove_if_exists_ok by done. do 2 f_equal. set_solver.
  - unfold Api.processing_failed. rewrite remove_if_exists_ok by done.
    do 2 f_equal. set_solver.
Qed.

Lemma upload_pdf_follows_pipeline_witness :
  Api.upload_pdf
    (Api.mkHost (fun name => name) "/data" (fun x => x) "pdf"
       (fun _ => None) (fun _ => None))
    plain_env (Some "a.pdf") Api.empty_site
  = (Ok (Api.Uploaded "PDF processed successfully" "a.pdf" 5, 200),
     Api.mkSite world_after_a ((∅ : gset string) ∖ {[ "/data/a.pdf" ]})).
Proof.
  exact (upload_pdf_follows_pipeline
           (Api.mkHost (fun name => name) "/data" (fun x => x) "pdf"
              (fun _ => None) (fun _ => None))
           plain_env "a.pdf" Api.empty_site eq_refl eq_refl eq_refl eq_refl).
Defined.
